(** * Rental tracker: billing schedule and payment status

    A shallow embedding of the billing logic of the two programs of the
    repository:

    - [rental_tracker_app.py]: [get_due_dates] and [calculate_status];
    - [rental_dashboard_streamlit.py]: the status derivation of the
      "Add Payment" form.

    The programs rely on [datetime.date], [calendar.monthrange] and
    [dateutil.relativedelta]; module [Datetime] models the part of these
    libraries that the programs reach.  Money amounts ([REAL] columns, Python
    floats) are exact rationals [Q] in modules [Tracker] and [Dashboard],
    for the statements that rounding does not affect, and binary64 numbers
    in module [Binary64], for the statements about the values computed. *)

From Stdlib Require Import ZArith QArith Bool List String Lia Permutation Sorted.
From Stdlib Require Import Ascii DecimalString DecimalZ.
From Stdlib Require Import PrimFloat Uint63.
Import ListNotations.
Local Open Scope Z_scope.

(* ================================================================== *)
(** * The date library *)
(* ================================================================== *)

Module Datetime.

(** [datetime.date]: a proleptic Gregorian date. *)
Record date : Set := mkdate { year : Z; month : Z; day : Z }.

Definition MINYEAR : Z := 1.
Definition MAXYEAR : Z := 9999.

(** [calendar.isleap] *)
Definition isleap (y : Z) : bool :=
  (y mod 4 =? 0) && (negb (y mod 100 =? 0) || (y mod 400 =? 0)).

(** [calendar.mdays] *)
Definition mdays (m : Z) : Z :=
  match m with
  | 1 => 31 | 2 => 28 | 3 => 31 | 4 => 30 | 5 => 31 | 6 => 30
  | 7 => 31 | 8 => 31 | 9 => 30 | 10 => 31 | 11 => 30 | 12 => 31
  | _ => 0
  end.

(** [calendar.monthrange(y, m)[1]]: the number of days of month [m] of
    year [y]. *)
Definition days_in_month (y m : Z) : Z :=
  mdays m + (if (m =? 2) && isleap y then 1 else 0).

(** The check done by the [date] constructor and by [date.replace]. *)
Definition check_date_fields (y m d : Z) : bool :=
  (MINYEAR <=? y) && (y <=? MAXYEAR) &&
  (1 <=? m) && (m <=? 12) &&
  (1 <=? d) && (d <=? days_in_month y m).

Definition date_valid (dt : date) : bool :=
  check_date_fields (year dt) (month dt) (day dt).

(** [date.replace(year=y, month=m, day=d)]; [None] stands for the
    exception of an out-of-range field. *)
Definition date_replace (y m d : Z) : option date :=
  if check_date_fields y m d then Some (mkdate y m d) else None.

(** Comparison of dates is the comparison of (year, month, day). *)
Definition date_cmp (a b : date) : comparison :=
  match year a ?= year b with
  | Eq => match month a ?= month b with
          | Eq => day a ?= day b
          | c => c
          end
  | c => c
  end.

Definition date_ltb (a b : date) : bool :=
  match date_cmp a b with Lt => true | _ => false end.
Definition date_leb (a b : date) : bool :=
  match date_cmp a b with Gt => false | _ => true end.
Definition date_gtb (a b : date) : bool := date_ltb b a.

(** [date.toordinal] *)
Definition days_before_year (y : Z) : Z :=
  let y1 := y - 1 in y1 * 365 + y1 / 4 - y1 / 100 + y1 / 400.

Definition days_before_month (y m : Z) : Z :=
  (match m with
   | 1 => 0 | 2 => 31 | 3 => 59 | 4 => 90 | 5 => 120 | 6 => 151
   | 7 => 181 | 8 => 212 | 9 => 243 | 10 => 273 | 11 => 304 | 12 => 334
   | _ => 0
   end) + (if (m >? 2) && isleap y then 1 else 0).

Definition toordinal (dt : date) : Z :=
  days_before_year (year dt) + days_before_month (year dt) (month dt) + day dt.

(** [(a - b).days] *)
Definition days_between (a b : date) : Z := toordinal a - toordinal b.

(** [dateutil.relativedelta], restricted to the two fields that
    [relativedelta(months=n)] sets. *)
Record relativedelta : Set := mkdelta { years : Z; months : Z }.

(** [relativedelta(months=n)]: the constructor normalises ([_fix]) a month
    count beyond 11 into years and months of the same sign. *)
Definition relativedelta_months (n : Z) : relativedelta :=
  if Z.abs n >? 11 then
    let s := Z.sgn n in
    let q := (n * s) / 12 in
    let r := (n * s) mod 12 in
    mkdelta (q * s) (r * s)
  else mkdelta 0 n.

(** The fields that [relativedelta.__radd__] hands to [date.replace]: the
    year and month are shifted, the day is clamped to the length of the
    target month. *)
Definition shifted (dt : date) (rd : relativedelta) : date :=
  let y := year dt + years rd in
  let m := month dt in
  let '(y, m) :=
    if months rd =? 0 then (y, m)
    else
      let m := m + months rd in
      if m >? 12 then (y + 1, m - 12)
      else if m <? 1 then (y - 1, m + 12)
      else (y, m) in
  mkdate y m (Z.min (days_in_month y m) (day dt)).

(** [dt + rd] *)
Definition date_add (dt : date) (rd : relativedelta) : option date :=
  let t := shifted dt rd in date_replace (year t) (month t) (day t).

(** [dt + relativedelta(months=n)] before the range check. *)
Definition months_after (dt : date) (n : Z) : date :=
  shifted dt (relativedelta_months n).

(** Months are counted from year 0: the position of a date's month. *)
Definition month_index (dt : date) : Z := year dt * 12 + (month dt - 1).

Definition max_month_index : Z := MAXYEAR * 12 + 11.

End Datetime.

(* ================================================================== *)
(** * Results of running Python code *)
(* ================================================================== *)

(** The exceptions the modelled code can raise, both from [date.replace]:
    [ValueError] for a year outside [MINYEAR..MAXYEAR], and [OverflowError]
    when the year does not even fit the C [int] that the call converts it
    to. *)
Inductive exn : Set := ValueError | OverflowError.

Definition C_INT_MIN : Z := - 2 ^ 31.
Definition C_INT_MAX : Z := 2 ^ 31 - 1.

(** The exception of [date.replace(year=y, ...)] when it raises. *)
Definition replace_error (y : Z) : exn :=
  if (C_INT_MIN <=? y) && (y <=? C_INT_MAX) then ValueError
  else OverflowError.

(** The exception of [dt + rd] when it raises. *)
Definition date_add_error (dt : Datetime.date) (rd : Datetime.relativedelta)
  : exn :=
  replace_error (Datetime.year (Datetime.shifted dt rd)).

(** A call returns a value, raises, or is still running when the fuel of
    the model is spent. *)
Inductive outcome (A : Type) : Type :=
| Returned (a : A)
| Raised (e : exn)
| OutOfFuel.
Arguments Returned {A} a.
Arguments Raised {A} e.
Arguments OutOfFuel {A}.

Definition bind {A B : Type} (o : outcome A) (k : A -> outcome B) : outcome B :=
  match o with
  | Returned a => k a
  | Raised e => Raised e
  | OutOfFuel => OutOfFuel
  end.

Notation "x <- o ;; k" := (bind o (fun x => k))
  (at level 61, o at next level, right associativity).

(** The value of an expression that raises [e] when it has no value. *)
Definition or_raise {A : Type} (e : exn) (o : option A) : outcome A :=
  match o with
  | Some a => Returned a
  | None => Raised e
  end.

(** The status labels of both programs. *)
Inductive status : Set := Paid | Unpaid | Overdue | DueSoon | Partial.

Definition status_label (s : status) : string :=
  match s with
  | Paid => "Paid"
  | Unpaid => "Unpaid"
  | Overdue => "Overdue"
  | DueSoon => "Due Soon"
  | Partial => "Partial"
  end.

(* ================================================================== *)
(** * rental_tracker_app.py *)
(* ================================================================== *)

Module Tracker.
Import Datetime.

(** A row of table [tenants]; [start] is the date that [start_date] holds
    in ISO format, [end_date] is [None] for SQL [NULL]. *)
Record tenant_row : Type := mktenant {
  tid : Z;
  unit_no : string;
  name : string;
  phone : string;
  start : date;
  end_date : option date;
  rent : Q;
  freq : string;
  ttype : string
}.

(** A row of table [payments]. *)
Record payment_row : Type := mkpayment {
  payment_id : Z;
  tenant_id : Z;
  due_date : date;
  amount_due : Q;
  amount_paid : Q;
  payment_date : date;
  method : string
}.

(** What [calculate_status] reads besides its argument: the clock
    ([date.today()]) and table [payments] behind the global cursor [c]. *)
Record world : Type := mkworld {
  today : date;
  payments : list payment_row
}.

(** [freq_map] *)
Definition freq_map : list (string * Z) :=
  [("Monthly"%string, 1); ("Quarterly"%string, 3);
   ("Semi-Annual"%string, 6); ("Annual"%string, 12)].

(** [dict.get(key, default)] *)
Fixpoint dict_get (m : list (string * Z)) (key : string) (default : Z) : Z :=
  match m with
  | [] => default
  | (k, v) :: m' => if String.eqb k key then v else dict_get m' key default
  end.

(** The loop of [get_due_dates]: [dates] and [current] are its two local
    variables, one unit of fuel is one test of the loop condition. *)
Fixpoint get_due_dates_loop (fuel : nat) (dates : list date) (current : date)
    (freq_months : Z) (until : date) : outcome (list date) :=
  match fuel with
  | O => OutOfFuel
  | S fuel' =>
      if date_leb current until then
        next <- or_raise
                  (date_add_error current (relativedelta_months freq_months))
                  (date_add current (relativedelta_months freq_months)) ;;
        get_due_dates_loop fuel' (dates ++ [current]) next freq_months until
      else Returned dates
  end.

(** Every iteration that does not raise moves [current] to another month of
    the calendar, which has [12 * MAXYEAR] months. *)
Definition loop_fuel : nat := Z.to_nat (12 * MAXYEAR + 1).

Definition get_due_dates (start : date) (freq_months : Z) (until : date)
  : outcome (list date) :=
  get_due_dates_loop loop_fuel [] start freq_months until.

(** [SELECT SUM(amount_paid) FROM payments WHERE tenant_id=?]: [None] is
    the [NULL] that [SUM] gives when no row matches. *)
Definition select_sum_amount_paid (tbl : list payment_row) (t : Z) : option Q :=
  match filter (fun p => tenant_id p =? t) tbl with
  | [] => None
  | rows => Some (fold_left Qplus (map amount_paid rows) 0%Q)
  end.

(** [v or 0.0] *)
Definition or_zero (v : option Q) : Q :=
  match v with
  | None => 0%Q
  | Some x => if Qeq_bool x 0 then 0%Q else x
  end.

(** Lines 69-70: the amount paid by tenant [t]. *)
Definition paid_total (tbl : list payment_row) (t : Z) : Q :=
  or_zero (select_sum_amount_paid tbl t).

(** Line 67 *)
Definition expected_amount (due_dates : list date) (rent : Q) : Q :=
  (inject_Z (Z.of_nat (List.length due_dates)) * rent)%Q.

(** Lines 74-84 *)
Definition determine_status (balance : Q) (due_dates : list date)
    (start today : date) (freq_m : Z) : outcome status :=
  if Qle_bool balance 0 then Returned Paid
  else if existsb (fun d => date_ltb d today) due_dates then Returned Overdue
  else
    next_due <- or_raise
        (date_add_error start
           (relativedelta_months (freq_m * Z.of_nat (List.length due_dates))))
        (date_add start
           (relativedelta_months (freq_m * Z.of_nat (List.length due_dates)))) ;;
    if days_between next_due today <=? 7 then Returned DueSoon
    else Returned Unpaid.

Definition calculate_status (w : world) (row : tenant_row)
  : outcome (Q * status) :=
  let freq_m := dict_get freq_map (freq row) 1 in
  due_dates <- get_due_dates (start row) freq_m (today w) ;;
  let paid := paid_total (payments w) (tid row) in
  let balance := (expected_amount due_dates (rent row) - paid)%Q in
  s <- determine_status balance due_dates (start row) (today w) freq_m ;;
  Returned (balance, s).

End Tracker.

(* ================================================================== *)
(** * rental_dashboard_streamlit.py *)
(* ================================================================== *)

Module Dashboard.
Import Datetime.

(** Line 77 *)
Definition remaining (amount_due amount_paid : Q) : Q :=
  (amount_due - amount_paid)%Q.

(** Lines 78-85: the status stored with a payment added through the
    form. *)
Definition add_payment_status (amount_due amount_paid : Q)
    (due_date payment_date : date) : status :=
  if Qeq_bool amount_paid amount_due then Paid
  else if Qeq_bool amount_paid 0 then Unpaid
  else if date_gtb payment_date due_date then Overdue
  else Partial.

End Dashboard.

(* ================================================================== *)
(** * Definitions that follow the specification *)
(* ================================================================== *)

Module Spec.
Import Datetime.

(** "Status derivation, in order": [Paid], [Overdue], [DueSoon],
    [Unpaid]. *)
Definition aggregate_status (balance : Q) (dueDates : list date)
    (asOf nextDue : date) : status :=
  if Qle_bool balance 0 then Paid
  else if existsb (fun d => date_ltb d asOf) dueDates then Overdue
  else if days_between nextDue asOf <=? 7 then DueSoon
  else Unpaid.

(** "Sums [amountPaid] across all payments". *)
Definition totalPaid (amounts : list Q) : Q := fold_right Qplus 0%Q amounts.

(** The dates [start, start + f, ..., start + (n-1) f]. *)
Definition multiples (start : date) (f : Z) (n : nat) : list date :=
  map (fun k => months_after start (f * Z.of_nat k)) (seq 0 n).

End Spec.

(* ================================================================== *)
(** * Sample data *)
(* ================================================================== *)

Module Examples.
Import Datetime Tracker.

(** The tenant of the scenarios: lease from 2024-01-01, monthly rent
    1000. *)
Definition tenant_a : tenant_row :=
  mktenant 7 "A1" "Tenant" "0100" (mkdate 2024 1 1) None 1000 "Monthly"
    "Residential".

(** Two payments of tenant 7; the second one is dated before its due
    date. *)
Definition payment_1 : payment_row :=
  mkpayment 1 7 (mkdate 2024 1 1) 1000 400 (mkdate 2024 1 3) "Cash".
Definition payment_2 : payment_row :=
  mkpayment 2 7 (mkdate 2024 2 1) 1000 600 (mkdate 2023 2 9) "Bank Transfer".

(** A payment of another tenant. *)
Definition payment_other : payment_row :=
  mkpayment 3 8 (mkdate 2024 1 1) 500 500 (mkdate 2024 1 1) "Cash".

End Examples.

(* ================================================================== *)
(** * The returning runs of the loop *)
(* ================================================================== *)

Module Runs.
Import Datetime.

(** [schedule f until cur tl]: entered with [current = cur], the loop of
    [get_due_dates] appends exactly the dates [tl] and then leaves because
    its condition fails.  No fuel is involved. *)
Inductive schedule (f : Z) (until : date) : date -> list date -> Prop :=
| schedule_stop (cur : date) :
    date_leb cur until = false ->
    schedule f until cur []
| schedule_step (cur next : date) (tl : list date) :
    date_leb cur until = true ->
    date_add cur (relativedelta_months f) = Some next ->
    schedule f until next tl ->
    schedule f until cur (cur :: tl).

End Runs.

(* ================================================================== *)
(** * rental_tracker_app.py in the arithmetic of the program *)
(* ================================================================== *)

(** Python floats and the [REAL] values of SQLite are binary64 numbers.
    Module [Tracker] above computes amounts as exact rationals, which is
    enough for statements that rounding cannot change (order of dates,
    equality tests, monotonicity).  This module states the same lines of
    the program with binary64 amounts, for the statements about the value
    of the balance and of the amount paid. *)
Module Binary64.
Import Datetime.
#[local] Set Warnings "-inexact-float".

Record tenant_row : Type := mktenant {
  tid : Z;
  unit_no : string;
  name : string;
  phone : string;
  start : date;
  end_date : option date;
  rent : float;
  freq : string;
  ttype : string
}.

Record payment_row : Type := mkpayment {
  payment_id : Z;
  tenant_id : Z;
  due_date : date;
  amount_due : float;
  amount_paid : float;
  payment_date : date;
  method : string
}.

Record world : Type := mkworld {
  today : date;
  payments : list payment_row
}.

(** The integer operand of [int * float] is converted to a float first;
    the conversion is exact for the counts of due dates. *)
Definition float_of_count (n : nat) : float :=
  PrimFloat.of_uint63 (Uint63.of_Z (Z.of_nat n)).

(** SQLite's [SUM] over [REAL] values: [NULL] without a row, otherwise the
    values added one after the other, in row order, to a binary64
    accumulator that starts at 0. *)
Definition sum_real (values : list float) : option float :=
  match values with
  | [] => None
  | _ => Some (fold_left PrimFloat.add values 0%float)
  end.

(** [SELECT SUM(amount_paid) FROM payments WHERE tenant_id=?] *)
Definition select_sum_amount_paid (tbl : list payment_row) (t : Z)
  : option float :=
  sum_real (map amount_paid (filter (fun p => tenant_id p =? t) tbl)).

(** [v or 0.0]: a float is false when it equals zero. *)
Definition or_zero (v : option float) : float :=
  match v with
  | None => 0%float
  | Some x => if PrimFloat.eqb x 0%float then 0%float else x
  end.

(** Lines 69-70 *)
Definition paid_total (tbl : list payment_row) (t : Z) : float :=
  or_zero (select_sum_amount_paid tbl t).

(** Line 67 *)
Definition expected_amount (due_dates : list date) (rent : float) : float :=
  PrimFloat.mul (float_of_count (List.length due_dates)) rent.

(** Lines 74-84 *)
Definition determine_status (balance : float) (due_dates : list date)
    (start today : date) (freq_m : Z) : outcome status :=
  if PrimFloat.leb balance 0%float then Returned Paid
  else if existsb (fun d => date_ltb d today) due_dates then Returned Overdue
  else
    next_due <- or_raise
        (date_add_error start
           (relativedelta_months (freq_m * Z.of_nat (List.length due_dates))))
        (date_add start
           (relativedelta_months (freq_m * Z.of_nat (List.length due_dates)))) ;;
    if days_between next_due today <=? 7 then Returned DueSoon
    else Returned Unpaid.

Definition calculate_status (w : world) (row : tenant_row)
  : outcome (float * status) :=
  let freq_m := Tracker.dict_get Tracker.freq_map (freq row) 1 in
  due_dates <- Tracker.get_due_dates (start row) freq_m (today w) ;;
  let paid := paid_total (payments w) (tid row) in
  let balance := PrimFloat.sub (expected_amount due_dates (rent row)) paid in
  s <- determine_status balance due_dates (start row) (today w) freq_m ;;
  Returned (balance, s).

(** "Status derivation, in order", on a binary64 balance. *)
Definition aggregate_status (balance : float) (dueDates : list date)
    (asOf nextDue : date) : status :=
  if PrimFloat.leb balance 0%float then Paid
  else if existsb (fun d => date_ltb d asOf) dueDates then Overdue
  else if days_between nextDue asOf <=? 7 then DueSoon
  else Unpaid.


Definition payment_other : payment_row :=
  mkpayment 4 8 (mkdate 2024 1 1) 500.0%float 500.0%float (mkdate 2024 1 9)
    "Cash".

End Binary64.

(* ================================================================== *)
(** * rental_tracker_app.py: the forms, the summary and the detail view *)
(* ================================================================== *)

Module App.
Import Datetime Tracker.

(** The two tables behind the connection [conn], rows in rowid order. *)
Record database : Type := mkdb {
  db_tenants : list tenant_row;
  db_payments : list payment_row
}.

(** What [calculate_status] sees of the database on a given day. *)
Definition world_of (db : database) (today : date) : world :=
  mkworld today (db_payments db).

(** [str(n)] for an integer: decimal digits, ["-"] in front of a negative
    number. *)
Definition py_str (n : Z) : string :=
  DecimalString.NilZero.string_of_int (Z.to_int n).

(** [s.split(sep)[0]] for a one-character separator: the text before the
    first separator, all of [s] when there is none. *)
Fixpoint split_head (sep : Ascii.ascii) (s : string) : string :=
  match s with
  | EmptyString => EmptyString
  | String c s' =>
      if Ascii.eqb c sep then EmptyString else String c (split_head sep s')
  end.

(** [WHERE end_date IS NULL] *)
Definition is_active (r : tenant_row) : bool :=
  match end_date r with
  | None => true
  | Some _ => false
  end.

Definition active (db : database) : list tenant_row :=
  filter is_active (db_tenants db).

(** Line 116: the label of a tenant in the "Remove Tenant" box,
    [f"{u} - {n}"]. *)
Definition remove_label (r : tenant_row) : string :=
  (unit_no r ++ " - " ++ name r)%string.

(** Line 128: the label of a tenant in the "Add Payment" box,
    [f"{tid}: {u} - {n}"]. *)
Definition payment_label (r : tenant_row) : string :=
  (py_str (tid r) ++ ": " ++ unit_no r ++ " - " ++ name r)%string.

(** Lines 104-109: "Add Tenant".  [rowid] is the key that SQLite gives to
    the new row: it is larger than the keys in the table, so that the row
    comes last. *)
Definition add_tenant (db : database) (rowid : Z) (unit_no name phone : string)
    (start_date : date) (rent : Q) (freq ttype : string) : database :=
  mkdb (db_tenants db ++
          [mktenant rowid unit_no name phone start_date None rent freq ttype])
       (db_payments db).

(** [UPDATE tenants SET end_date=? WHERE id=?] *)
Definition set_end_date (t : Z) (d : date) (r : tenant_row) : tenant_row :=
  if tid r =? t then
    mktenant (tid r) (unit_no r) (name r) (phone r) (start r) (Some d)
      (rent r) (freq r) (ttype r)
  else r.

(** Lines 117-121: "Remove Tenant" with [sel] selected.  [None] stands for
    the [IndexError] of [[...][0]] when no active tenant has the label; it
    is raised before the update. *)
Definition remove_tenant (db : database) (today : date) (sel : string)
  : option database :=
  match filter (fun r => String.eqb (remove_label r) sel) (active db) with
  | [] => None
  | r :: _ =>
      Some (mkdb (map (set_end_date (tid r) today) (db_tenants db))
                 (db_payments db))
  end.

Section Builtins.

(** Python's [int(s)]; [None] stands for its [ValueError]. *)
Variable py_int : string -> option Z.

(** Lines 132-139: "Add Payment" with [sel] selected.  The row is stored
    with the payment date as due date and the amount paid as amount due;
    [rowid] is the key that SQLite gives to the new row, larger than the
    keys in the table. *)
Definition add_payment (db : database) (rowid : Z) (sel : string)
    (amount_paid : Q) (pay_date : date) (method : string) : option database :=
  match py_int (split_head ":"%char sel) with
  | None => None
  | Some t =>
      Some (mkdb (db_tenants db)
                 (db_payments db ++
                    [mkpayment rowid t pay_date amount_paid amount_paid
                       pay_date method]))
  end.

End Builtins.

(** A row of the summary table (lines 150-157). *)
Record summary_row : Type := mkrow {
  row_unit : string;
  row_tenant : string;
  row_rent : Q;
  row_amount_due : Q;
  row_phone : string;
  row_status : status
}.

(** Lines 146-157: the loop over the active tenants. *)
Fixpoint summary_rows (w : world) (trs : list tenant_row)
  : outcome (list summary_row) :=
  match trs with
  | [] => Returned []
  | tr :: rest =>
      bs <- calculate_status w tr ;;
      rows <- summary_rows w rest ;;
      Returned (mkrow (unit_no tr) (name tr) (rent tr) (fst bs) (phone tr)
                  (snd bs) :: rows)
  end.

Definition summary (db : database) (today : date)
  : outcome (list summary_row) :=
  summary_rows (world_of db today) (active db).

(** What the detail view does for the selected unit. *)
Inductive detail_view : Type :=
| NothingSelected
| DetailIndexError
| Listed (lines : list (date * Q * Q * date * string)).

(** Lines 173-181: nothing happens when the selection is empty
    ([if sel_unit:]); otherwise the payments of the first active tenant of
    the unit are fetched ([DetailIndexError] is the [IndexError] of
    [[...][0]]) and shown as a table, or as a notice when there is none. *)
Definition detail_payments (db : database) (sel_unit : string) : detail_view :=
  if String.eqb sel_unit "" then NothingSelected
  else
    match filter (fun r => String.eqb (unit_no r) sel_unit) (active db) with
    | [] => DetailIndexError
    | r :: _ =>
        Listed (map (fun p => (due_date p, amount_due p, amount_paid p,
                               payment_date p, method p))
                  (filter (fun p => tenant_id p =? tid r) (db_payments db)))
    end.

End App.

(* ================================================================== *)
(** * Sample data: a table with several tenants *)
(* ================================================================== *)

Module Table.
Import Datetime Tracker App.

Definition tenant_b : tenant_row :=
  mktenant 8 "B2" "Other" "0200" (mkdate 2024 2 1) None 500 "Quarterly"
    "Commercial".

(** An active tenant with the unit and the name, hence the label, of
    [Examples.tenant_a]. *)
Definition tenant_twin : tenant_row :=
  mktenant 9 "A1" "Tenant" "0300" (mkdate 2024 3 1) None 900 "Monthly"
    "Residential".

Definition tenant_d : tenant_row :=
  mktenant 10 "C3" "Third" "0400" (mkdate 2023 6 15) None 750 "Annual"
    "Residential".

(** A tenant removed on 2023-12-31. *)
Definition tenant_gone : tenant_row :=
  mktenant 6 "Z9" "Gone" "0500" (mkdate 2023 1 1) (Some (mkdate 2023 12 31))
    800 "Monthly" "Residential".

(** A payment of one rent by tenant 7. *)
Definition payment_full : payment_row :=
  mkpayment 5 7 (mkdate 2024 1 1) 1000 1000 (mkdate 2024 1 1) "Cash".

(** Four tenants with distinct labels, three of them active. *)
Definition db_distinct : database :=
  mkdb [tenant_gone; tenant_b; Examples.tenant_a; tenant_d]
       [Examples.payment_1; Examples.payment_other].

(** Two active tenants with one label. *)
Definition db_twins : database :=
  mkdb [tenant_gone; tenant_b; Examples.tenant_a; tenant_twin]
       [Examples.payment_1; Examples.payment_other].

End Table.

(* ================================================================== *)
(** * A reader of decimal literals *)
(* ================================================================== *)

Module Literals.

(** The integer written by an optional ["-"] and decimal digits, as
    [int(s)] reads it; [None] on every other string. *)
Definition int_of_decimal (s : string) : option Z :=
  option_map Z.of_int (DecimalString.NilZero.int_of_string s).

End Literals.

(* ================================================================== *)
(** * Ordinals of months *)
(* ================================================================== *)

Module Ordinals.
Import Datetime.

(** The ordinal of the day before the first day of the month at position
    [i]. *)
Definition month_ordinal (i : Z) : Z :=
  days_before_year (i / 12) + days_before_month (i / 12) (i mod 12 + 1).

End Ordinals.

(* ================================================================== *)
(** * Facts about the date library *)
(* ================================================================== *)

Import Datetime.

Lemma check_date_fields_spec (y m dd : Z) :
  check_date_fields y m dd = true <->
  (MINYEAR <= y <= MAXYEAR /\ 1 <= m <= 12 /\ 1 <= dd <= days_in_month y m).
Proof.
  unfold check_date_fields.
  rewrite !andb_true_iff, !Z.leb_le. lia.
Qed.

Lemma date_valid_spec (dt : date) :
  date_valid dt = true <->
  (MINYEAR <= year dt <= MAXYEAR /\ 1 <= month dt <= 12 /\
   1 <= day dt <= days_in_month (year dt) (month dt)).
Proof. apply check_date_fields_spec. Qed.

Lemma days_in_month_bounds (y m : Z) :
  1 <= m <= 12 -> 28 <= days_in_month y m <= 31.
Proof.
  intros Hm. unfold days_in_month.
  assert (Hc : m = 1 \/ m = 2 \/ m = 3 \/ m = 4 \/ m = 5 \/ m = 6 \/ m = 7 \/
               m = 8 \/ m = 9 \/ m = 10 \/ m = 11 \/ m = 12) by lia.
  repeat (destruct Hc as [-> | Hc]); try subst m; simpl;
    try lia; destruct (isleap y); simpl; lia.
Qed.

Lemma date_valid_month_index (dt : date) :
  date_valid dt = true -> 12 <= month_index dt <= max_month_index.
Proof.
  rewrite date_valid_spec. unfold month_index, max_month_index, MINYEAR, MAXYEAR.
  lia.
Qed.

(** [relativedelta(months=n)] stands for [n] months, split into years and
    at most eleven months. *)
Lemma relativedelta_months_split (n : Z) :
  years (relativedelta_months n) * 12 + months (relativedelta_months n) = n /\
  -11 <= months (relativedelta_months n) <= 11.
Proof.
  unfold relativedelta_months.
  destruct (Z.abs n >? 11) eqn:E; simpl.
  - apply Z.gtb_lt in E.
    assert (Hs : n * Z.sgn n = Z.abs n) by apply Z.sgn_abs.
    rewrite Hs.
    pose proof (Z.div_mod (Z.abs n) 12 ltac:(lia)) as Hdm.
    pose proof (Z.mod_pos_bound (Z.abs n) 12 ltac:(lia)) as Hb.
    destruct (Z.sgn_spec n) as [[Hn ->] | [[Hn ->] | [Hn ->]]]; lia.
  - rewrite Z.gtb_ltb in E. apply Z.ltb_ge in E. lia.
Qed.

(** Adding [n] months moves the month by [n] positions and clamps the day
    to the length of the month reached. *)
Lemma months_after_spec (dt : date) (n : Z) :
  1 <= month dt <= 12 ->
  1 <= month (months_after dt n) <= 12 /\
  month_index (months_after dt n) = month_index dt + n /\
  day (months_after dt n) =
    Z.min (days_in_month (year (months_after dt n)) (month (months_after dt n)))
          (day dt).
Proof.
  intros Hm.
  destruct (relativedelta_months_split n) as [Hsplit Hb].
  unfold months_after, shifted, month_index in *.
  destruct (months (relativedelta_months n) =? 0) eqn:E0.
  - apply Z.eqb_eq in E0. simpl. lia.
  - destruct (month dt + months (relativedelta_months n) >? 12) eqn:E1.
    + apply Z.gtb_lt in E1. simpl. lia.
    + rewrite Z.gtb_ltb in E1. apply Z.ltb_ge in E1.
      destruct (month dt + months (relativedelta_months n) <? 1) eqn:E2.
      * apply Z.ltb_lt in E2. simpl. lia.
      * apply Z.ltb_ge in E2. simpl. lia.
Qed.


(** [date_add] raises exactly when the month reached lies outside the
    calendar. *)
Lemma date_add_Some (dt : date) (n : Z) :
  date_valid dt = true ->
  12 <= month_index dt + n <= max_month_index ->
  date_add dt (relativedelta_months n) = Some (months_after dt n).
Proof.
  intros Hv Hr.
  apply date_valid_spec in Hv. destruct Hv as (Hy & Hm & Hd).
  destruct (months_after_spec dt n Hm) as (Hm' & Hi & Hday).
  fold (months_after dt n) in *.
  unfold date_add. fold (months_after dt n).
  unfold date_replace.
  replace (check_date_fields _ _ _) with true.
  - now destruct (months_after dt n).
  - symmetry. apply check_date_fields_spec.
    pose proof (days_in_month_bounds (year (months_after dt n)) _ Hm').
    unfold month_index, max_month_index, MINYEAR, MAXYEAR in *. lia.
Qed.

Lemma date_add_None (dt : date) (n : Z) :
  date_valid dt = true ->
  ~ 12 <= month_index dt + n <= max_month_index ->
  date_add dt (relativedelta_months n) = None.
Proof.
  intros Hv Hr.
  apply date_valid_spec in Hv. destruct Hv as (Hy & Hm & Hd).
  destruct (months_after_spec dt n Hm) as (Hm' & Hi & Hday).
  unfold date_add. fold (months_after dt n).
  unfold date_replace.
  destruct (check_date_fields _ _ _) eqn:E; [| reflexivity].
  apply check_date_fields_spec in E.
  unfold month_index, max_month_index, MINYEAR, MAXYEAR in *. lia.
Qed.

Lemma date_add_inv (dt t : date) (n : Z) :
  date_valid dt = true ->
  date_add dt (relativedelta_months n) = Some t ->
  t = months_after dt n /\ date_valid t = true /\
  month_index t = month_index dt + n.
Proof.
  intros Hv H.
  pose proof Hv as Hv'. apply date_valid_spec in Hv'.
  destruct Hv' as (Hy & Hm & Hd).
  destruct (months_after_spec dt n Hm) as (Hm' & Hi & Hday).
  unfold date_add in H. fold (months_after dt n) in H.
  unfold date_replace in H.
  destruct (check_date_fields _ _ _) eqn:E; [| discriminate].
  injection H as <-.
  assert (Heq : mkdate (year (months_after dt n)) (month (months_after dt n))
                  (day (months_after dt n)) = months_after dt n)
    by now destruct (months_after dt n).
  rewrite Heq. repeat split; auto.
Qed.

(** Adding no month gives the date back. *)
Lemma months_after_0 (dt : date) :
  date_valid dt = true -> months_after dt 0 = dt.
Proof.
  intros Hv. apply date_valid_spec in Hv. destruct Hv as (Hy & Hm & Hd).
  unfold months_after, shifted. simpl.
  rewrite Z.add_0_r, Z.min_r by lia. now destruct dt.
Qed.

(** ** The order on dates *)

Ltac cmp_cases :=
  unfold date_ltb, date_leb, date_gtb, date_cmp;
  repeat match goal with
  | |- context [?a ?= ?b] => destruct (Z.compare_spec a b)
  | H : context [?a ?= ?b] |- _ => destruct (Z.compare_spec a b)
  end.

Lemma date_leb_refl (a : date) : date_leb a a = true.
Proof. cmp_cases; try reflexivity; lia. Qed.

Lemma date_ltb_irrefl (a : date) : date_ltb a a = false.
Proof. cmp_cases; try reflexivity; lia. Qed.

Lemma date_ltb_leb (a b : date) : date_ltb a b = negb (date_leb b a).
Proof. cmp_cases; try reflexivity; lia. Qed.

Lemma date_leb_ltb (a b : date) : date_leb a b = negb (date_ltb b a).
Proof. cmp_cases; try reflexivity; lia. Qed.

Lemma date_leb_trans (a b c : date) :
  date_leb a b = true -> date_leb b c = true -> date_leb a c = true.
Proof. cmp_cases; intros; try reflexivity; try discriminate; lia. Qed.

Lemma date_ltb_leb_trans (a b c : date) :
  date_ltb a b = true -> date_leb b c = true -> date_ltb a c = true.
Proof. cmp_cases; intros; try reflexivity; try discriminate; lia. Qed.

Lemma date_leb_ltb_trans (a b c : date) :
  date_leb a b = true -> date_ltb b c = true -> date_ltb a c = true.
Proof. cmp_cases; intros; try reflexivity; try discriminate; lia. Qed.

Lemma date_ltb_le (a b : date) : date_ltb a b = true -> date_leb a b = true.
Proof. cmp_cases; intros; try reflexivity; try discriminate; lia. Qed.

Lemma date_leb_antisym (a b : date) :
  date_leb a b = true -> date_leb b a = true -> a = b.
Proof.
  destruct a as [ya ma da], b as [yb mb db].
  cmp_cases; simpl in *; intros; try discriminate; try lia.
  congruence.
Qed.

(** A date in an earlier month is an earlier date. *)
Lemma month_index_lt (a b : date) :
  1 <= month a <= 12 -> 1 <= month b <= 12 ->
  month_index a < month_index b -> date_ltb a b = true.
Proof.
  unfold month_index.
  cmp_cases; intros; try reflexivity; lia.
Qed.

Lemma date_leb_month_index (a b : date) :
  1 <= month a <= 12 -> 1 <= month b <= 12 ->
  date_leb a b = true -> month_index a <= month_index b.
Proof.
  unfold month_index.
  cmp_cases; intros; try discriminate; lia.
Qed.
(* ================================================================== *)
(** * The loop of [get_due_dates] *)
(* ================================================================== *)

Import Tracker Runs.

Lemma loop_fuel_value : Z.of_nat loop_fuel = 12 * MAXYEAR + 1.
Proof. unfold loop_fuel. rewrite Z2Nat.id; [reflexivity | unfold MAXYEAR; lia]. Qed.

#[global] Opaque loop_fuel.

Lemma loop_unfold (fuel : nat) (acc : list date) (cur : date) (f : Z)
    (until : date) :
  get_due_dates_loop (S fuel) acc cur f until =
  if date_leb cur until then
    next <- or_raise (date_add_error cur (relativedelta_months f))
              (date_add cur (relativedelta_months f)) ;;
    get_due_dates_loop fuel (acc ++ [cur]) next f until
  else Returned acc.
Proof. reflexivity. Qed.

(** The dates already collected do not influence the rest of the run. *)
Lemma loop_acc (fuel : nat) :
  forall (acc : list date) (cur : date) (f : Z) (until : date),
  get_due_dates_loop fuel acc cur f until =
  match get_due_dates_loop fuel [] cur f until with
  | Returned tl => Returned (acc ++ tl)
  | Raised e => Raised e
  | OutOfFuel => OutOfFuel
  end.
Proof.
  induction fuel as [| fuel IH]; intros acc cur f until; simpl.
  - reflexivity.
  - destruct (date_leb cur until).
    + destruct (date_add cur (relativedelta_months f)) as [next |]; simpl.
      * rewrite (IH (acc ++ [cur])), (IH [cur]).
        destruct (get_due_dates_loop fuel [] next f until); try reflexivity.
        now rewrite <- app_assoc.
      * reflexivity.
    + now rewrite app_nil_r.
Qed.

(** A run that returns is a [schedule], and it used less fuel than it
    had. *)
Lemma loop_returns_schedule (fuel : nat) :
  forall (cur : date) (f : Z) (until : date) (tl : list date),
  get_due_dates_loop fuel [] cur f until = Returned tl ->
  schedule f until cur tl /\ (List.length tl < fuel)%nat.
Proof.
  induction fuel as [| fuel IH]; intros cur f until tl; simpl.
  - discriminate.
  - destruct (date_leb cur until) eqn:Ele.
    + destruct (date_add cur (relativedelta_months f)) as [next |] eqn:Eadd;
        simpl; [| discriminate].
      rewrite loop_acc.
      destruct (get_due_dates_loop fuel [] next f until) as [tl' | |] eqn:Erun;
        try discriminate.
      intros [= <-]. destruct (IH _ _ _ _ Erun) as [Hs Hl].
      split; [eapply schedule_step; eauto | simpl; lia].
    + intros [= <-]. split; [now apply schedule_stop | simpl; lia].
Qed.

(** Conversely, a [schedule] is what the loop returns once it has more
    fuel than dates to append. *)
Lemma schedule_loop (f : Z) (until cur : date) (tl : list date) :
  schedule f until cur tl ->
  forall fuel, (List.length tl < fuel)%nat ->
  get_due_dates_loop fuel [] cur f until = Returned tl.
Proof.
  induction 1 as [cur Hle | cur next tl Hle Hadd Hs IH]; intros fuel Hfuel.
  - destruct fuel as [| fuel]; [lia |]. simpl. now rewrite Hle.
  - destruct fuel as [| fuel]; [simpl in Hfuel; lia |]. simpl.
    rewrite Hle, Hadd. simpl. rewrite loop_acc, IH by (simpl in Hfuel; lia).
    reflexivity.
Qed.

Lemma schedule_det (f : Z) (until cur : date) (tl1 tl2 : list date) :
  schedule f until cur tl1 -> schedule f until cur tl2 -> tl1 = tl2.
Proof.
  intros H1. revert tl2.
  induction H1 as [cur Hle | cur next tl Hle Hadd Hs IH]; intros tl2 H2;
    inversion H2; subst; try congruence.
  f_equal. apply IH. congruence.
Qed.

(** With a later horizon the loop appends the same dates and then some. *)
Lemma schedule_horizon_mono (f : Z) (h1 h2 cur : date) (tl2 : list date) :
  date_leb h1 h2 = true ->
  schedule f h2 cur tl2 ->
  exists tl1 rest, schedule f h1 cur tl1 /\ tl2 = tl1 ++ rest.
Proof.
  intros Hh. induction 1 as [cur Hle | cur next tl Hle Hadd Hs IH].
  - exists [], []. split; [| reflexivity]. apply schedule_stop.
    destruct (date_leb cur h1) eqn:E; [| reflexivity].
    now rewrite (date_leb_trans _ _ _ E Hh) in Hle.
  - destruct (date_leb cur h1) eqn:E.
    + destruct IH as (tl1 & rest & Hs1 & ->).
      exists (cur :: tl1), rest. split; [| reflexivity].
      eapply schedule_step; eauto.
    + exists [], (cur :: tl). split; [now apply schedule_stop | reflexivity].
Qed.

(** ** Runs with a positive frequency *)

Section PositiveFrequency.

Variable f : Z.
Variable until : date.
Hypothesis f_pos : 0 < f.

(** One step of the loop leads to a later, valid date [f] months on. *)
Lemma step_forward (cur next : date) :
  date_valid cur = true ->
  date_add cur (relativedelta_months f) = Some next ->
  date_valid next = true /\ month_index next = month_index cur + f /\
  date_ltb cur next = true /\ next = months_after cur f.
Proof.
  intros Hv Hadd. destruct (date_add_inv _ _ _ Hv Hadd) as (Heq & Hv' & Hi).
  repeat split; auto.
  apply date_valid_spec in Hv, Hv'.
  apply month_index_lt; lia.
Qed.

(** Every date of the schedule is valid and lies between the first date
    and the horizon. *)
Lemma schedule_bounds (cur : date) (tl : list date) :
  schedule f until cur tl ->
  date_valid cur = true ->
  Forall (fun e => date_valid e = true /\ date_leb cur e = true /\
                   date_leb e until = true) tl.
Proof.
  induction 1 as [cur Hle | cur next tl Hle Hadd Hs IH]; intros Hv.
  - constructor.
  - destruct (step_forward _ _ Hv Hadd) as (Hv' & Hi & Hlt & _).
    constructor.
    + auto using date_leb_refl.
    + eapply Forall_impl; [| apply IH; assumption].
      intros e (He1 & He2 & He3). repeat split; auto.
      eapply date_leb_trans; [apply date_ltb_le; eassumption | assumption].
Qed.

(** The dates of the schedule are strictly increasing. *)
Lemma schedule_sorted (cur : date) (tl : list date) :
  schedule f until cur tl ->
  date_valid cur = true ->
  StronglySorted (fun a b => date_ltb a b = true) tl.
Proof.
  induction 1 as [cur Hle | cur next tl Hle Hadd Hs IH]; intros Hv.
  - constructor.
  - destruct (step_forward _ _ Hv Hadd) as (Hv' & Hi & Hlt & _).
    constructor; [auto |].
    eapply Forall_impl; [| apply (schedule_bounds _ _ Hs Hv')].
    intros e (_ & He & _). eapply date_ltb_leb_trans; eassumption.
Qed.

(** The date on which the loop leaves is still in the calendar, [f] months
    per appended date after the first one. *)
Lemma schedule_exit_index (cur : date) (tl : list date) :
  schedule f until cur tl ->
  date_valid cur = true ->
  12 <= month_index cur + f * Z.of_nat (List.length tl) <= max_month_index.
Proof.
  induction 1 as [cur Hle | cur next tl Hle Hadd Hs IH]; intros Hv.
  - simpl. pose proof (date_valid_month_index _ Hv). lia.
  - destruct (step_forward _ _ Hv Hadd) as (Hv' & Hi & _ & _).
    specialize (IH Hv'). simpl List.length. lia.
Qed.

(** The loop returns whenever one period after the horizon is still in the
    calendar. *)
Lemma schedule_exists (m : nat) :
  forall cur : date,
  date_valid cur = true -> date_valid until = true ->
  month_index until + f <= max_month_index ->
  month_index until - month_index cur < Z.of_nat m ->
  exists tl, schedule f until cur tl.
Proof.
  induction m as [| m IH]; intros cur Hv Hu Hr Hm.
  - exists []. apply schedule_stop.
    destruct (date_leb cur until) eqn:E; [| reflexivity].
    apply date_valid_spec in Hv, Hu.
    apply date_leb_month_index in E; lia.
  - destruct (date_leb cur until) eqn:E.
    + pose proof Hv as Hv0. pose proof Hu as Hu0.
      apply date_valid_spec in Hv0, Hu0.
      pose proof (date_leb_month_index cur until ltac:(lia) ltac:(lia) E) as Hi.
      pose proof (date_valid_month_index _ Hv) as Hc.
      assert (Hadd : date_add cur (relativedelta_months f) =
                     Some (months_after cur f))
        by (apply date_add_Some; [assumption | lia]).
      destruct (step_forward _ _ Hv Hadd) as (Hv' & Hi' & _ & _).
      destruct (IH (months_after cur f) Hv' Hu Hr ltac:(lia)) as [tl Htl].
      exists (cur :: tl). eapply schedule_step; eauto.
    + exists []. now apply schedule_stop.
Qed.

(** With a positive frequency the loop stops, by returning or raising,
    before the fuel of [get_due_dates] is spent. *)
Lemma loop_terminates (fuel : nat) :
  forall (acc : list date) (cur : date),
  date_valid cur = true ->
  max_month_index - month_index cur < Z.of_nat fuel ->
  get_due_dates_loop fuel acc cur f until <> OutOfFuel.
Proof.
  induction fuel as [| fuel IH]; intros acc cur Hv Hm.
  - pose proof (date_valid_month_index _ Hv). lia.
  - simpl. destruct (date_leb cur until); [| discriminate].
    destruct (date_add cur (relativedelta_months f)) as [next |] eqn:Hadd;
      simpl; [| discriminate].
    destruct (step_forward _ _ Hv Hadd) as (Hv' & Hi & _ & _).
    apply IH; [assumption | lia].
Qed.

End PositiveFrequency.

(** ** Runs with a frequency that is not positive *)

(** Which exception [dt + relativedelta(months=n)] raises is decided by
    the month reached. *)
Lemma date_add_error_value (dt : date) (n : Z) :
  date_valid dt = true ->
  (C_INT_MIN * 12 <= month_index dt + n <= C_INT_MAX * 12 + 11 ->
   date_add_error dt (relativedelta_months n) = ValueError) /\
  (month_index dt + n < C_INT_MIN * 12 ->
   date_add_error dt (relativedelta_months n) = OverflowError).
Proof.
  intros Hv. apply date_valid_spec in Hv. destruct Hv as (Hy & Hm & Hd).
  destruct (months_after_spec dt n Hm) as (Hm' & Hi & _).
  unfold date_add_error, replace_error. fold (months_after dt n).
  unfold month_index in Hi. fold (month_index dt) in Hi.
  split; intros Hr.
  - replace ((C_INT_MIN <=? year (months_after dt n)) &&
             (year (months_after dt n) <=? C_INT_MAX)) with true;
      [reflexivity |].
    symmetry. apply andb_true_iff. rewrite !Z.leb_le. lia.
  - replace (C_INT_MIN <=? year (months_after dt n)) with false;
      [reflexivity |].
    symmetry. apply Z.leb_gt. lia.
Qed.

(** With a negative frequency and a first date within the horizon, the
    loop walks back in time until the date leaves the calendar, and
    raises. *)
Lemma loop_negative_raises (f : Z) (until : date) (fuel : nat) :
  f < 0 ->
  forall (acc : list date) (cur : date),
  date_valid cur = true ->
  date_leb cur until = true ->
  month_index cur - 12 < Z.of_nat fuel ->
  exists e, get_due_dates_loop fuel acc cur f until = Raised e.
Proof.
  intros Hf. induction fuel as [| fuel IH]; intros acc cur Hv Hle Hm.
  - pose proof (date_valid_month_index _ Hv). lia.
  - simpl. rewrite Hle.
    destruct (date_add cur (relativedelta_months f)) as [next |] eqn:Hadd;
      simpl; [| eauto].
    destruct (date_add_inv _ _ _ Hv Hadd) as (Heq & Hv' & Hi).
    apply IH; [assumption | | lia].
    apply date_ltb_le. eapply date_ltb_leb_trans; [| exact Hle].
    pose proof Hv as Hv0. pose proof Hv' as Hv0'.
    apply date_valid_spec in Hv0, Hv0'.
    apply month_index_lt; lia.
Qed.

(** The exception is [ValueError] when the frequency fits a C [int]. *)
Lemma loop_negative_value_error (f : Z) (until : date) (fuel : nat) :
  C_INT_MIN <= f < 0 ->
  forall (acc : list date) (cur : date),
  date_valid cur = true ->
  date_leb cur until = true ->
  month_index cur - 12 < Z.of_nat fuel ->
  get_due_dates_loop fuel acc cur f until = Raised ValueError.
Proof.
  intros Hf. induction fuel as [| fuel IH]; intros acc cur Hv Hle Hm.
  - pose proof (date_valid_month_index _ Hv). lia.
  - simpl. rewrite Hle.
    destruct (date_add cur (relativedelta_months f)) as [next |] eqn:Hadd;
      simpl.
    + destruct (date_add_inv _ _ _ Hv Hadd) as (Heq & Hv' & Hi).
      apply IH; [assumption | | lia].
      apply date_ltb_le. eapply date_ltb_leb_trans; [| exact Hle].
      pose proof Hv as Hv0. pose proof Hv' as Hv0'.
      apply date_valid_spec in Hv0, Hv0'.
      apply month_index_lt; lia.
    + f_equal. apply date_add_error_value; [assumption |].
      pose proof (date_valid_month_index _ Hv).
      unfold C_INT_MIN, C_INT_MAX, max_month_index, MAXYEAR in *. lia.
Qed.

(** It is [OverflowError], at the first addition, when the frequency is
    far below the C [int] range. *)
Lemma loop_negative_overflow_error (f : Z) (until : date) (fuel : nat)
    (acc : list date) (cur : date) :
  f < 12 * C_INT_MIN - max_month_index ->
  date_valid cur = true ->
  date_leb cur until = true ->
  get_due_dates_loop (S fuel) acc cur f until = Raised OverflowError.
Proof.
  intros Hf Hv Hle. simpl. rewrite Hle.
  pose proof (date_valid_month_index _ Hv) as Hc.
  rewrite date_add_None
    by (assumption || (unfold C_INT_MIN, max_month_index, MAXYEAR in *; lia)).
  simpl. f_equal. apply date_add_error_value; [assumption |].
  unfold C_INT_MIN in *. lia.
Qed.

(** With frequency zero and a first date within the horizon, [current]
    never changes and the loop condition never fails. *)
Lemma loop_zero_diverges (until : date) (fuel : nat) :
  forall (acc : list date) (cur : date),
  date_valid cur = true ->
  date_leb cur until = true ->
  get_due_dates_loop fuel acc cur 0 until = OutOfFuel.
Proof.
  induction fuel as [| fuel IH]; intros acc cur Hv Hle.
  - reflexivity.
  - simpl. rewrite Hle.
    rewrite date_add_Some, months_after_0; auto.
    + simpl. now apply IH.
    + pose proof (date_valid_month_index _ Hv). lia.
Qed.

(** ** [get_due_dates] and its schedule *)

Lemma get_due_dates_schedule (start : date) (f : Z) (until : date)
    (ds : list date) :
  get_due_dates start f until = Returned ds -> schedule f until start ds.
Proof.
  unfold get_due_dates. intros H.
  exact (proj1 (loop_returns_schedule _ _ _ _ _ H)).
Qed.

Lemma schedule_get_due_dates (start : date) (f : Z) (until : date)
    (ds : list date) :
  0 < f -> date_valid start = true ->
  schedule f until start ds -> get_due_dates start f until = Returned ds.
Proof.
  intros Hf Hv Hs. apply schedule_loop; [assumption |].
  pose proof (schedule_exit_index f until Hf _ _ Hs Hv) as Hx.
  pose proof (date_valid_month_index _ Hv) as Hc.
  pose proof loop_fuel_value as Hfuel.
  unfold max_month_index, MAXYEAR in *. nia.
Qed.

Lemma get_due_dates_returns (start : date) (f : Z) (until : date) :
  0 < f -> date_valid start = true -> date_valid until = true ->
  month_index until + f <= max_month_index ->
  exists ds, get_due_dates start f until = Returned ds.
Proof.
  intros Hf Hv Hu Hr.
  destruct (schedule_exists f until Hf
              (Z.to_nat (month_index until - month_index start + 1))
              start Hv Hu Hr ltac:(lia)) as [tl Htl].
  exists tl. now apply schedule_get_due_dates.
Qed.

Lemma get_due_dates_terminates (start : date) (f : Z) (until : date) :
  0 < f -> date_valid start = true ->
  get_due_dates start f until <> OutOfFuel.
Proof.
  intros Hf Hv. apply loop_terminates; auto.
  pose proof (date_valid_month_index _ Hv).
  rewrite loop_fuel_value. unfold max_month_index, MAXYEAR in *. lia.
Qed.

Lemma get_due_dates_after_horizon (start : date) (f : Z) (until : date) :
  date_ltb until start = true -> get_due_dates start f until = Returned [].
Proof.
  intros H. apply schedule_loop.
  - apply schedule_stop. rewrite date_leb_ltb, H. reflexivity.
  - pose proof loop_fuel_value. unfold MAXYEAR in *. simpl List.length. lia.
Qed.

(** ** First dates up to the 28th: no clamping *)

Lemma date_eq_by_index (a b : date) :
  1 <= month a <= 12 -> 1 <= month b <= 12 ->
  month_index a = month_index b -> day a = day b -> a = b.
Proof.
  destruct a as [ya ma da], b as [yb mb db]. unfold month_index. simpl.
  intros Ha Hb Hi ->. assert (ya = yb) by lia. assert (ma = mb) by lia.
  congruence.
Qed.

Lemma months_after_small_day (dt : date) (n : Z) :
  1 <= month dt <= 12 -> 1 <= day dt <= 28 ->
  day (months_after dt n) = day dt.
Proof.
  intros Hm Hd. destruct (months_after_spec dt n Hm) as (Hm' & _ & ->).
  pose proof (days_in_month_bounds (year (months_after dt n)) _ Hm'). lia.
Qed.

Lemma months_after_compose (dt : date) (a b : Z) :
  1 <= month dt <= 12 -> 1 <= day dt <= 28 ->
  months_after (months_after dt a) b = months_after dt (a + b).
Proof.
  intros Hm Hd.
  destruct (months_after_spec dt a Hm) as (Hma & Hia & _).
  destruct (months_after_spec (months_after dt a) b Hma) as (Hmb & Hib & _).
  destruct (months_after_spec dt (a + b) Hm) as (Hmc & Hic & _).
  apply date_eq_by_index; try assumption; try lia.
  rewrite !months_after_small_day; auto.
  rewrite months_after_small_day; auto.
Qed.

(** Later multiples are later dates. *)
Lemma months_after_increasing (dt : date) (a b : Z) :
  1 <= month dt <= 12 -> a < b ->
  date_ltb (months_after dt a) (months_after dt b) = true.
Proof.
  intros Hm Hab.
  destruct (months_after_spec dt a Hm) as (Hma & Hia & _).
  destruct (months_after_spec dt b Hm) as (Hmb & Hib & _).
  apply month_index_lt; lia.
Qed.

Lemma multiples_succ (start : date) (f : Z) (n : nat) :
  date_valid start = true -> 1 <= day start <= 28 ->
  Spec.multiples start f (S n) =
  start :: Spec.multiples (months_after start f) f n.
Proof.
  intros Hv Hd. pose proof Hv as Hv0. apply date_valid_spec in Hv0.
  unfold Spec.multiples. simpl seq. simpl map.
  rewrite Z.mul_0_r, months_after_0 by assumption. f_equal.
  rewrite <- seq_shift, map_map. apply map_ext. intros k.
  rewrite months_after_compose by lia. f_equal. lia.
Qed.

(** When the first date is no later than the 28th, the loop appends the
    multiples of [f] months after it and leaves on the first multiple past
    the horizon. *)
Lemma schedule_multiples (f : Z) (until cur : date) (tl : list date) :
  0 < f ->
  schedule f until cur tl ->
  date_valid cur = true -> 1 <= day cur <= 28 ->
  tl = Spec.multiples cur f (List.length tl) /\
  date_leb (months_after cur (f * Z.of_nat (List.length tl))) until = false.
Proof.
  intros Hf. induction 1 as [cur Hle | cur next tl Hle Hadd Hs IH];
    intros Hv Hd.
  - split; [reflexivity |]. simpl. now rewrite Z.mul_0_r, months_after_0.
  - destruct (step_forward f Hf _ _ Hv Hadd) as (Hv' & Hi & Hlt & ->).
    pose proof Hv as Hv0. apply date_valid_spec in Hv0.
    assert (Hd' : 1 <= day (months_after cur f) <= 28)
      by (rewrite months_after_small_day; lia).
    destruct (IH Hv' Hd') as [IH1 IH2].
    simpl List.length. split.
    + rewrite multiples_succ by assumption. now f_equal.
    + rewrite months_after_compose in IH2 by lia.
      replace (f * Z.of_nat (S (List.length tl)))
        with (f + f * Z.of_nat (List.length tl)) by lia.
      exact IH2.
Qed.

(* ================================================================== *)
(** * The schedule generator: [get_due_dates] *)
(* ================================================================== *)

Ltac by_computation := first [reflexivity | lia | (vm_compute; congruence)].

Lemma multiples_length (start : date) (f : Z) (n : nat) :
  List.length (Spec.multiples start f n) = n.
Proof. unfold Spec.multiples. now rewrite length_map, length_seq. Qed.

(** Where the loop does produce the multiples: for a valid first date, a
    frequency [f > 0] and a horizon such that [f] months after the
    horizon's month is still in the calendar, [get_due_dates] returns a
    strictly increasing list of dates between the first date and the
    horizon; and when the first date is no later than the 28th of its
    month, so that no addition clamps the day, the list is exactly
    [start, start + f, start + 2f, ...] for every multiple that is at most
    the horizon. *)
Lemma get_due_dates_multiples (start horizon : date) (f : Z) :
  date_valid start = true -> date_valid horizon = true ->
  0 < f -> month_index horizon + f <= max_month_index ->
  exists ds,
    get_due_dates start f horizon = Returned ds /\
    StronglySorted (fun a b => date_ltb a b = true) ds /\
    Forall (fun e => date_leb start e = true /\ date_leb e horizon = true) ds /\
    (date_ltb horizon start = true -> ds = []) /\
    (start = horizon -> ds = [start]) /\
    (day start <= 28 ->
     ds = Spec.multiples start f (List.length ds) /\
     forall k : nat,
       date_leb (months_after start (f * Z.of_nat k)) horizon = true <->
       (k < List.length ds)%nat).
Proof.
  intros Hv Hh Hf Hr.
  destruct (get_due_dates_returns start f horizon Hf Hv Hh Hr) as [ds Hds].
  pose proof (get_due_dates_schedule _ _ _ _ Hds) as Hs.
  pose proof (schedule_bounds f horizon Hf _ _ Hs Hv) as Hb.
  exists ds. split; [assumption |]. split; [| split; [| split; [| split]]].
  - eapply schedule_sorted; eassumption.
  - eapply Forall_impl; [| exact Hb]. intros e (_ & H1 & H2). now split.
  - intros Hlt. rewrite get_due_dates_after_horizon in Hds by assumption.
    congruence.
  - intros <-. inversion Hs as [cur Hle | cur next tl Hle Hadd Hs']; subst.
    + now rewrite date_leb_refl in Hle.
    + f_equal. destruct (step_forward f Hf _ _ Hv Hadd) as (_ & _ & Hlt & _).
      inversion Hs' as [cur Hle' | cur next' tl' Hle' Hadd' Hs'']; subst;
        [reflexivity |].
      rewrite date_leb_ltb, Hlt in Hle'. discriminate.
  - intros Hday. pose proof Hv as Hv0. apply date_valid_spec in Hv0.
    destruct (schedule_multiples f horizon start ds Hf Hs Hv ltac:(lia))
      as [Heq Hexit].
    split; [assumption |]. intros k. split.
    + intros Hk. destruct (Nat.lt_ge_cases k (List.length ds)) as [| Hge];
        [assumption | exfalso].
      assert (Hle : date_leb (months_after start (f * Z.of_nat (List.length ds)))
                      (months_after start (f * Z.of_nat k)) = true).
      { destruct (Nat.eq_dec k (List.length ds)) as [-> | Hne].
        - apply date_leb_refl.
        - apply date_ltb_le, months_after_increasing; [lia | nia]. }
      rewrite (date_leb_trans _ _ _ Hle Hk) in Hexit. discriminate.
    + intros Hk.
      assert (Hin : In (months_after start (f * Z.of_nat k)) ds).
      { rewrite Heq. unfold Spec.multiples.
        apply (in_map (fun k => months_after start (f * Z.of_nat k))).
        apply in_seq. lia. }
      rewrite Forall_forall in Hb. now destruct (Hb _ Hin) as (_ & _ & ?).
Qed.

(** C2: the claim is right and the loop misses it.  Line 54 adds [f]
    months to the previous date, which line 54 may already have clamped,
    instead of adding [k * f] months to the first date, as line 80 does for
    the next due date.  For a lease from 2024-01-31 with a monthly
    frequency and horizon 2024-03-30 the multiples of one month within the
    horizon are 2024-01-31 and 2024-02-29 (the next one is 2024-03-31), but
    the loop returns three dates, the third being 2024-03-29; and the date
    the loop would add next, 2024-04-29, is not the next due date of
    line 80, 2024-04-30. *)
Theorem get_due_dates_drift :
  get_due_dates (mkdate 2024 1 31) 1 (mkdate 2024 3 30) =
    Returned [mkdate 2024 1 31; mkdate 2024 2 29; mkdate 2024 3 29] /\
  Spec.multiples (mkdate 2024 1 31) 1 3 =
    [mkdate 2024 1 31; mkdate 2024 2 29; mkdate 2024 3 31] /\
  date_leb (mkdate 2024 3 31) (mkdate 2024 3 30) = false /\
  (~ exists n, get_due_dates (mkdate 2024 1 31) 1 (mkdate 2024 3 30) =
               Returned (Spec.multiples (mkdate 2024 1 31) 1 n)) /\
  date_add (mkdate 2024 3 29) (relativedelta_months 1) =
    Some (mkdate 2024 4 29) /\
  date_add (mkdate 2024 1 31) (relativedelta_months (1 * 3)) =
    Some (mkdate 2024 4 30).
Proof.
  assert (Hrun : get_due_dates (mkdate 2024 1 31) 1 (mkdate 2024 3 30) =
     Returned [mkdate 2024 1 31; mkdate 2024 2 29; mkdate 2024 3 29])
    by (vm_compute; reflexivity).
  split; [exact Hrun |]. split; [reflexivity |]. split; [reflexivity |].
  split; [| split; reflexivity].
  intros [n Hn]. rewrite Hrun in Hn. injection Hn as Hn.
  assert (Hlen : n = 3%nat)
    by (apply (f_equal (@List.length date)) in Hn;
        rewrite multiples_length in Hn; simpl in Hn; congruence).
  subst n. vm_compute in Hn. discriminate.
Qed.

Lemma freq_map_positive (freq : string) : 0 < dict_get freq_map freq 1.
Proof.
  unfold freq_map. simpl.
  repeat match goal with
  | |- context [if ?b then _ else _] => destruct b
  end; lia.
Qed.

(** C3, as amended: [get_due_dates] validates nothing and has no
    [InvalidScheduleError].  With a positive frequency it terminates on
    every input.  With a frequency [f <= 0] it returns the empty list when
    the first date is after the horizon; when the first date is within the
    horizon it never leaves the loop for [f = 0] and it raises an
    exception of the date library for [f < 0], once the running date
    leaves the calendar: [ValueError] when [f] fits a C [int],
    [OverflowError] when [f] is so far below that the year reached does
    not fit one.  The only caller, [calculate_status], takes the frequency
    from [freq_map] with default 1, so it always passes a positive one. *)
Theorem get_due_dates_unvalidated_frequency (start horizon : date) (f : Z) :
  date_valid start = true ->
  (0 < f -> get_due_dates start f horizon <> OutOfFuel) /\
  (f <= 0 -> date_ltb horizon start = true ->
   get_due_dates start f horizon = Returned []) /\
  (f < 0 -> date_leb start horizon = true ->
   exists e, get_due_dates start f horizon = Raised e) /\
  (C_INT_MIN <= f < 0 -> date_leb start horizon = true ->
   get_due_dates start f horizon = Raised ValueError) /\
  (f < 12 * C_INT_MIN - max_month_index -> date_leb start horizon = true ->
   get_due_dates start f horizon = Raised OverflowError) /\
  (f = 0 -> date_leb start horizon = true ->
   forall (fuel : nat) (dates : list date),
     get_due_dates_loop fuel dates start f horizon = OutOfFuel) /\
  (forall freq : string, 0 < dict_get freq_map freq 1).
Proof.
  intros Hv.
  assert (Hfuel : month_index start - 12 < Z.of_nat loop_fuel).
  { pose proof (date_valid_month_index _ Hv).
    rewrite loop_fuel_value. unfold max_month_index, MAXYEAR in *. lia. }
  split; [| split; [| split; [| split; [| split; [| split]]]]].
  - intros Hf. now apply get_due_dates_terminates.
  - intros _ Hlt. now apply get_due_dates_after_horizon.
  - intros Hf Hle. now apply loop_negative_raises.
  - intros Hf Hle. now apply loop_negative_value_error.
  - intros Hf Hle. unfold get_due_dates.
    pose proof (date_valid_month_index _ Hv).
    destruct loop_fuel as [| fuel] eqn:E; [simpl in Hfuel; lia |].
    now apply loop_negative_overflow_error.
  - intros -> Hle fuel dates. now apply loop_zero_diverges.
  - apply freq_map_positive.
Qed.

Lemma get_due_dates_unvalidated_frequency_witness :
  get_due_dates (mkdate 2024 1 1) 1 (mkdate 2024 4 1) <> OutOfFuel /\
  get_due_dates (mkdate 2024 4 1) (-1) (mkdate 2024 1 1) = Returned [] /\
  (exists e, get_due_dates (mkdate 2024 1 1) (-1) (mkdate 2024 4 1) =
             Raised e) /\
  get_due_dates (mkdate 2024 1 1) (-1) (mkdate 2024 4 1) = Raised ValueError /\
  get_due_dates (mkdate 2024 1 1) (- 2 ^ 40) (mkdate 2024 4 1) =
    Raised OverflowError /\
  (forall (fuel : nat) (dates : list date),
     get_due_dates_loop fuel dates (mkdate 2024 1 1) 0 (mkdate 2024 4 1) =
     OutOfFuel).
Proof.
  split; [| split; [| split; [| split; [| split]]]].
  - apply (get_due_dates_unvalidated_frequency
             (mkdate 2024 1 1) (mkdate 2024 4 1) 1); by_computation.
  - apply (get_due_dates_unvalidated_frequency
             (mkdate 2024 4 1) (mkdate 2024 1 1) (-1)); by_computation.
  - apply (get_due_dates_unvalidated_frequency
             (mkdate 2024 1 1) (mkdate 2024 4 1) (-1)); by_computation.
  - apply (get_due_dates_unvalidated_frequency
             (mkdate 2024 1 1) (mkdate 2024 4 1) (-1));
      first [reflexivity | (vm_compute; intuition congruence)].
  - apply (get_due_dates_unvalidated_frequency
             (mkdate 2024 1 1) (mkdate 2024 4 1) (- 2 ^ 40));
      first [reflexivity | (vm_compute; intuition congruence)].
  - apply (get_due_dates_unvalidated_frequency
             (mkdate 2024 1 1) (mkdate 2024 4 1) 0); by_computation.
Defined.

(** C3 as stated fails: with frequency 0 and the first date after the
    horizon the call returns the empty list instead of failing, and with
    frequency 0 and the first date within the horizon it never
    terminates. *)
Lemma get_due_dates_unvalidated_frequency_counterexample :
  get_due_dates (mkdate 2024 4 1) 0 (mkdate 2024 1 1) = Returned [] /\
  (forall fuel : nat,
     get_due_dates_loop fuel [] (mkdate 2024 1 1) 0 (mkdate 2024 4 1) =
     OutOfFuel).
Proof.
  split.
  - now apply get_due_dates_after_horizon.
  - intros fuel. now apply loop_zero_diverges.
Qed.

(** C9: for a fixed first date and frequency and horizons [h1 <= h2],
    whenever the call with the later horizon returns (which it does for a
    positive frequency when [f] months after the later horizon's month is
    in the calendar), the call with the earlier horizon returns as well and
    its list is no longer; hence, for a rent that is not negative, the
    expected amount of [calculate_status] does not decrease when the
    current date increases. *)
Theorem get_due_dates_monotone (start : date) (f : Z) (h1 h2 : date) :
  date_leb h1 h2 = true ->
  (0 < f -> date_valid start = true -> date_valid h2 = true ->
   month_index h2 + f <= max_month_index ->
   exists ds2, get_due_dates start f h2 = Returned ds2) /\
  (forall ds2 : list date,
     get_due_dates start f h2 = Returned ds2 ->
     exists ds1,
       get_due_dates start f h1 = Returned ds1 /\
       (List.length ds1 <= List.length ds2)%nat /\
       forall rent : Q, (0 <= rent)%Q ->
         (expected_amount ds1 rent <= expected_amount ds2 rent)%Q).
Proof.
  intros Hh. split.
  - intros Hf Hv Hv2 Hr. now apply get_due_dates_returns.
  - intros ds2 H2. unfold get_due_dates in *.
    destruct (loop_returns_schedule _ _ _ _ _ H2) as [Hs2 Hfuel].
    destruct (schedule_horizon_mono f h1 h2 start ds2 Hh Hs2)
      as (ds1 & rest & Hs1 & ->).
    rewrite length_app in *.
    exists ds1. split; [| split].
    + apply schedule_loop; [assumption | lia].
    + lia.
    + intros rent Hrent. unfold expected_amount.
      apply Qmult_le_compat_r; [| assumption].
      rewrite <- Zle_Qle, length_app. lia.
Qed.

Lemma get_due_dates_monotone_witness :
  (exists ds2,
     get_due_dates (mkdate 2024 1 1) 1 (mkdate 2024 4 1) = Returned ds2) /\
  exists ds1,
    get_due_dates (mkdate 2024 1 1) 1 (mkdate 2024 2 15) = Returned ds1 /\
    (List.length ds1 <=
     List.length [mkdate 2024 1 1; mkdate 2024 2 1; mkdate 2024 3 1;
                  mkdate 2024 4 1])%nat /\
    forall rent : Q, (0 <= rent)%Q ->
      (expected_amount ds1 rent <=
       expected_amount [mkdate 2024 1 1; mkdate 2024 2 1; mkdate 2024 3 1;
                        mkdate 2024 4 1] rent)%Q.
Proof.
  destruct (get_due_dates_monotone (mkdate 2024 1 1) 1 (mkdate 2024 2 15)
              (mkdate 2024 4 1)) as [Hreturns Hmono]; [by_computation |].
  split.
  - apply Hreturns; by_computation.
  - apply Hmono; by_computation.
Defined.

(** C6: adding months keeps the day of the month when the month reached
    has that day and otherwise clamps it to the last day of that month.
    With first date 2024-01-31, a monthly frequency and any horizon from
    2024-02-29 on, the first two iterations of the loop raise nothing and
    append 2024-01-31 and 2024-02-29 (not 2024-03-02); so the second date
    of every list the call returns is 2024-02-29, and the call does return
    whenever the month after the horizon's is in the calendar. *)
Theorem month_end_second_due_date :
  (forall (dt t : date) (n : Z),
     date_valid dt = true ->
     date_add dt (relativedelta_months n) = Some t ->
     month_index t = month_index dt + n /\
     day t = Z.min (days_in_month (year t) (month t)) (day dt)) /\
  (forall horizon : date,
     date_leb (mkdate 2024 2 29) horizon = true ->
     date_add (mkdate 2024 1 31) (relativedelta_months 1) =
       Some (mkdate 2024 2 29) /\
     (forall fuel : nat,
        get_due_dates_loop (S (S fuel)) [] (mkdate 2024 1 31) 1 horizon =
        get_due_dates_loop fuel [mkdate 2024 1 31; mkdate 2024 2 29]
          (mkdate 2024 3 29) 1 horizon) /\
     (forall ds : list date,
        get_due_dates (mkdate 2024 1 31) 1 horizon = Returned ds ->
        nth_error ds 1 = Some (mkdate 2024 2 29)) /\
     (date_valid horizon = true ->
      month_index horizon + 1 <= max_month_index ->
      exists ds, get_due_dates (mkdate 2024 1 31) 1 horizon = Returned ds)).
Proof.
  split.
  - intros dt t n Hv Hadd.
    destruct (date_add_inv _ _ _ Hv Hadd) as (-> & Hv' & Hi).
    split; [assumption |].
    apply date_valid_spec in Hv.
    now destruct (months_after_spec dt n ltac:(lia)) as (_ & _ & ?).
  - intros horizon Hh.
    assert (H1 : date_leb (mkdate 2024 1 31) horizon = true)
      by (eapply date_leb_trans; [| exact Hh]; reflexivity).
    assert (Hadd1 : date_add (mkdate 2024 1 31) (relativedelta_months 1) =
                    Some (mkdate 2024 2 29)) by reflexivity.
    assert (Hadd2 : date_add (mkdate 2024 2 29) (relativedelta_months 1) =
                    Some (mkdate 2024 3 29)) by reflexivity.
    split; [exact Hadd1 |]. split; [| split].
    + intros fuel.
      rewrite loop_unfold, H1, Hadd1. unfold bind, or_raise.
      rewrite loop_unfold, Hh, Hadd2. reflexivity.
    + intros ds Hds. apply get_due_dates_schedule in Hds.
      inversion Hds as [cur Hle | cur next tl Hle Hadd Hs]; subst;
        [congruence |].
      rewrite Hadd1 in Hadd. injection Hadd as <-.
      inversion Hs as [cur Hle' | cur next tl' Hle' Hadd' Hs']; subst;
        [congruence | reflexivity].
    + intros Hv Hr. apply get_due_dates_returns; auto; lia.
Qed.

Lemma month_end_second_due_date_witness :
  (month_index (mkdate 2024 2 29) = month_index (mkdate 2024 1 31) + 1 /\
   day (mkdate 2024 2 29) =
     Z.min (days_in_month (year (mkdate 2024 2 29)) (month (mkdate 2024 2 29)))
           (day (mkdate 2024 1 31))) /\
  nth_error [mkdate 2024 1 31; mkdate 2024 2 29; mkdate 2024 3 29] 1 =
    Some (mkdate 2024 2 29) /\
  exists ds,
    get_due_dates (mkdate 2024 1 31) 1 (mkdate 2024 3 31) = Returned ds.
Proof.
  destruct month_end_second_due_date as [Hadd Hrun].
  split; [| split].
  - apply (Hadd (mkdate 2024 1 31) (mkdate 2024 2 29) 1); by_computation.
  - reflexivity.
  - apply (Hrun (mkdate 2024 3 31)); by_computation.
Defined.

(* ================================================================== *)
(** * The amount paid: lines 69-70 of [calculate_status] *)
(* ================================================================== *)

Lemma fold_left_Qplus (l : list Q) (a : Q) :
  (fold_left Qplus l a == a + Spec.totalPaid l)%Q.
Proof.
  revert a. induction l as [| x l IH]; intros a; simpl.
  - ring.
  - rewrite IH. ring.
Qed.

Lemma or_zero_Some (x : Q) : (or_zero (Some x) == x)%Q.
Proof.
  simpl. destruct (Qeq_bool x 0) eqn:E; [| reflexivity].
  symmetry. now apply Qeq_bool_eq.
Qed.

(** The amount paid is the sum of [amount_paid] over the rows of the
    tenant. *)
Lemma paid_total_sum (tbl : list payment_row) (t : Z) :
  (paid_total tbl t ==
   Spec.totalPaid (map amount_paid (filter (fun p => tenant_id p =? t) tbl)))%Q.
Proof.
  unfold paid_total, select_sum_amount_paid.
  destruct (filter (fun p => tenant_id p =? t) tbl) as [| p rows] eqn:E.
  - reflexivity.
  - rewrite or_zero_Some, fold_left_Qplus. ring.
Qed.

(* ================================================================== *)
(** * The aggregate status: [calculate_status] *)
(* ================================================================== *)

(** The date after the last due date is [f] months per due date after the
    first one, and it is in the calendar. *)
Lemma next_due_exists (start : date) (f : Z) (until : date) (ds : list date) :
  0 < f -> date_valid start = true ->
  get_due_dates start f until = Returned ds ->
  date_add start (relativedelta_months (f * Z.of_nat (List.length ds))) =
  Some (months_after start (f * Z.of_nat (List.length ds))).
Proof.
  intros Hf Hv Hds. apply get_due_dates_schedule in Hds.
  apply date_add_Some; [assumption |].
  now apply (schedule_exit_index f until Hf start ds).
Qed.

(** No due date of a schedule is before its first date, so none is
    overdue on the day the lease starts. *)
Lemma none_before_start (start : date) (f : Z) (until : date) (ds : list date) :
  0 < f -> date_valid start = true ->
  get_due_dates start f until = Returned ds ->
  existsb (fun e => date_ltb e start) ds = false.
Proof.
  intros Hf Hv Hds. apply get_due_dates_schedule in Hds.
  pose proof (schedule_bounds f until Hf _ _ Hds Hv) as Hb. clear Hds.
  induction Hb as [| e tl (_ & He & _) _ IH]; simpl.
  - reflexivity.
  - rewrite date_ltb_leb, He, IH. reflexivity.
Qed.

(** C5: the overdue test is strict.  On the day the lease starts the only
    due date is the current date, which is not overdue, so the status is
    never [Overdue]; and for the tenant that starts on 2024-01-01 with a
    monthly rent of 1000 and no payment, on 2024-01-01 the schedule is
    [[2024-01-01]], the balance is 1000, the next due date 2024-02-01 is
    31 days away and the status is [Unpaid]. *)
Theorem due_today_is_not_overdue :
  (forall (w : world) (row : tenant_row) (balance : Q),
     date_valid (start row) = true ->
     start row = today w ->
     calculate_status w row <> Returned (balance, Overdue)) /\
  (forall (w : world) (row : tenant_row),
     start row = mkdate 2024 1 1 -> freq row = "Monthly"%string ->
     rent row = 1000%Q -> today w = mkdate 2024 1 1 ->
     filter (fun p => tenant_id p =? tid row) (payments w) = [] ->
     get_due_dates (start row) 1 (today w) = Returned [mkdate 2024 1 1] /\
     date_ltb (mkdate 2024 1 1) (today w) = false /\
     date_add (start row) (relativedelta_months (1 * 1)) =
       Some (mkdate 2024 2 1) /\
     days_between (mkdate 2024 2 1) (today w) = 31 /\
     calculate_status w row = Returned (1000%Q, Unpaid)).
Proof.
  split.
  - intros w row balance Hv Hstart.
    pose proof (freq_map_positive (freq row)) as Hf.
    unfold calculate_status. cbv zeta.
    destruct (get_due_dates _ _ _) as [ds | e |] eqn:Hds;
      cbv beta iota delta [bind]; try discriminate.
    rewrite <- Hstart in *.
    unfold determine_status.
    rewrite (none_before_start _ _ _ _ Hf Hv Hds).
    destruct (Qle_bool _ 0); [discriminate |].
    destruct (date_add _ _) as [next_due |];
      cbv beta iota delta [bind or_raise]; [| discriminate].
    destruct (days_between next_due (start row) <=? 7); discriminate.
  - intros [today payments] [tid unit_no name phone start end_date rent freq ttype].
    cbn [Tracker.start Tracker.freq Tracker.rent Tracker.today Tracker.tid
         Tracker.payments].
    intros -> -> -> -> Hnone.
    split; [vm_compute; reflexivity |].
    split; [reflexivity |]. split; [reflexivity |]. split; [reflexivity |].
    unfold calculate_status, paid_total, select_sum_amount_paid.
    cbn [Tracker.start Tracker.freq Tracker.rent Tracker.today Tracker.tid
         Tracker.payments].
    rewrite Hnone. vm_compute. reflexivity.
Qed.

Lemma due_today_is_not_overdue_witness :
  calculate_status (mkworld (mkdate 2024 1 1) [Examples.payment_other])
    Examples.tenant_a <> Returned (1000%Q, Overdue) /\
  calculate_status (mkworld (mkdate 2024 1 1) [Examples.payment_other])
    Examples.tenant_a = Returned (1000%Q, Unpaid).
Proof.
  destruct due_today_is_not_overdue as [Hstrict Hscenario].
  split.
  - apply Hstrict; by_computation.
  - apply (Hscenario (mkworld (mkdate 2024 1 1) [Examples.payment_other])
             Examples.tenant_a); by_computation.
Defined.

(** C7, as amended: [calculate_status] takes the tenant row only; it reads
    the current date from the clock and the payments through the global
    cursor.  Its result is determined by the row, the current date and the
    payments of that tenant: two calls with the same row give the same
    balance and status whenever the date is the same and the table holds
    the same payments for the tenant, whatever else the table holds. *)
Theorem calculate_status_deterministic (w1 w2 : world) (row : tenant_row) :
  today w1 = today w2 ->
  filter (fun p => tenant_id p =? tid row) (payments w1) =
  filter (fun p => tenant_id p =? tid row) (payments w2) ->
  calculate_status w1 row = calculate_status w2 row.
Proof.
  intros Hclock Hrows.
  unfold calculate_status, paid_total, select_sum_amount_paid.
  now rewrite Hclock, Hrows.
Qed.

Lemma calculate_status_deterministic_witness :
  calculate_status
    (mkworld (mkdate 2024 4 1) [Examples.payment_1; Examples.payment_other])
    Examples.tenant_a =
  calculate_status
    (mkworld (mkdate 2024 4 1) [Examples.payment_1]) Examples.tenant_a.
Proof.
  apply (calculate_status_deterministic
           (mkworld (mkdate 2024 4 1) [Examples.payment_1; Examples.payment_other])
           (mkworld (mkdate 2024 4 1) [Examples.payment_1])
           Examples.tenant_a); by_computation.
Defined.

(** C7 as stated fails: the same tenant row gives (1000, Unpaid) when the
    clock reads 2024-01-01 and (4000, Overdue) when it reads 2024-04-01,
    with the same (empty) table; and on one date it gives another balance
    once the table behind the cursor holds a payment. *)
Lemma calculate_status_deterministic_counterexample :
  payments (mkworld (mkdate 2024 1 1) []) =
  payments (mkworld (mkdate 2024 4 1) []) /\
  calculate_status (mkworld (mkdate 2024 1 1) []) Examples.tenant_a =
    Returned (1000%Q, Unpaid) /\
  calculate_status (mkworld (mkdate 2024 4 1) []) Examples.tenant_a =
    Returned (4000%Q, Overdue) /\
  calculate_status (mkworld (mkdate 2024 4 1) [Examples.payment_1])
    Examples.tenant_a = Returned (3600%Q, Overdue) /\
  calculate_status (mkworld (mkdate 2024 1 1) []) Examples.tenant_a <>
  calculate_status (mkworld (mkdate 2024 4 1) []) Examples.tenant_a.
Proof.
  repeat split; try (vm_compute; reflexivity).
  vm_compute. discriminate.
Qed.

(* ================================================================== *)
(** * The status of one payment record: the "Add Payment" form *)
(* ================================================================== *)

Import Dashboard.

(** C4: the status of a record is [Paid] when the amount paid equals the
    amount due; otherwise [Unpaid] when nothing was paid; otherwise
    [Overdue] when the payment date is after the due date; otherwise
    [Partial]. *)
Theorem add_payment_status_cases (amount_due amount_paid : Q)
    (due_date payment_date : date) :
  ((amount_paid == amount_due)%Q ->
   add_payment_status amount_due amount_paid due_date payment_date = Paid) /\
  (~ (amount_paid == amount_due)%Q -> (amount_paid == 0)%Q ->
   add_payment_status amount_due amount_paid due_date payment_date = Unpaid) /\
  (~ (amount_paid == amount_due)%Q -> ~ (amount_paid == 0)%Q ->
   date_gtb payment_date due_date = true ->
   add_payment_status amount_due amount_paid due_date payment_date = Overdue) /\
  (~ (amount_paid == amount_due)%Q -> ~ (amount_paid == 0)%Q ->
   date_gtb payment_date due_date = false ->
   add_payment_status amount_due amount_paid due_date payment_date = Partial).
Proof.
  unfold add_payment_status.
  destruct (Qeq_bool amount_paid amount_due) eqn:Edue.
  - apply Qeq_bool_eq in Edue. repeat split; intros; try reflexivity; tauto.
  - apply Qeq_bool_neq in Edue.
    destruct (Qeq_bool amount_paid 0) eqn:Ezero.
    + apply Qeq_bool_eq in Ezero. repeat split; intros; try reflexivity; tauto.
    + apply Qeq_bool_neq in Ezero.
      destruct (date_gtb payment_date due_date);
        repeat split; intros; try reflexivity; try tauto; discriminate.
Qed.

Lemma add_payment_status_cases_witness :
  add_payment_status 1000 1000 (mkdate 2024 1 1) (mkdate 2024 1 5) = Paid /\
  add_payment_status 1000 0 (mkdate 2024 1 1) (mkdate 2024 1 5) = Unpaid /\
  add_payment_status 1000 500 (mkdate 2024 1 1) (mkdate 2024 1 5) = Overdue /\
  add_payment_status 1000 500 (mkdate 2024 1 1) (mkdate 2024 1 1) = Partial.
Proof.
  split; [| split; [| split]].
  - apply (add_payment_status_cases 1000 1000); by_computation.
  - apply (add_payment_status_cases 1000 0); by_computation.
  - apply (add_payment_status_cases 1000 500 (mkdate 2024 1 1) (mkdate 2024 1 5));
      by_computation.
  - apply (add_payment_status_cases 1000 500 (mkdate 2024 1 1) (mkdate 2024 1 1));
      by_computation.
Defined.

(** C10: the [Paid] test comes first, so a record with nothing due and
    nothing paid is [Paid], not [Unpaid], whatever its dates. *)
Theorem zero_installment_is_paid (amount_due amount_paid : Q)
    (due_date payment_date : date) :
  (amount_due == 0)%Q -> (amount_paid == 0)%Q ->
  add_payment_status amount_due amount_paid due_date payment_date = Paid /\
  add_payment_status amount_due amount_paid due_date payment_date <> Unpaid.
Proof.
  intros Hdue Hpaid. unfold add_payment_status.
  assert (E : Qeq_bool amount_paid amount_due = true)
    by (apply Qeq_bool_iff; now rewrite Hdue, Hpaid).
  rewrite E. split; [reflexivity | discriminate].
Qed.

Lemma zero_installment_is_paid_witness :
  add_payment_status 0 0 (mkdate 2024 1 1) (mkdate 2024 1 5) = Paid /\
  add_payment_status 0 0 (mkdate 2024 1 1) (mkdate 2024 1 5) <> Unpaid.
Proof.
  apply (zero_installment_is_paid 0 0 (mkdate 2024 1 1) (mkdate 2024 1 5));
    reflexivity.
Defined.

(* ================================================================== *)
(** * More on the schedule: its size and the days of its dates *)
(* ================================================================== *)

Lemma date_leb_false_index (a b : date) :
  1 <= month a <= 12 -> 1 <= month b <= 12 ->
  date_leb a b = false ->
  month_index b <= month_index a /\
  (day a <= day b -> month_index b < month_index a).
Proof.
  unfold month_index.
  cmp_cases; intros; try discriminate; lia.
Qed.

(** The size of a schedule whose first date is within the horizon, from
    the number [q] of whole periods between the two months. *)
Lemma schedule_count (f : Z) (until cur : date) (tl : list date) :
  0 < f ->
  schedule f until cur tl ->
  date_valid cur = true -> date_valid until = true ->
  date_leb cur until = true ->
  (month_index until - month_index cur) / f <= Z.of_nat (List.length tl) /\
  Z.of_nat (List.length tl) <= (month_index until - month_index cur) / f + 1 /\
  (day cur <= day until ->
   Z.of_nat (List.length tl) = (month_index until - month_index cur) / f + 1).
Proof.
  intros Hf. induction 1 as [cur Hle | cur next tl Hle Hadd Hs IH];
    intros Hv Hu Hcur; [congruence |].
  destruct (step_forward f Hf _ _ Hv Hadd) as (Hv' & Hi & _ & Hnext).
  pose proof Hv as Hv0. pose proof Hv' as Hv0'. pose proof Hu as Hu0.
  apply date_valid_spec in Hv0, Hv0', Hu0.
  assert (Hday : day next <= day cur).
  { subst next. destruct (months_after_spec cur f ltac:(lia)) as (_ & _ & ->).
    lia. }
  pose proof (date_leb_month_index cur until ltac:(lia) ltac:(lia) Hle) as Hidx.
  set (x := month_index until - month_index cur) in *.
  assert (Hq : (x - f) / f = x / f - 1).
  { replace (x - f) with (x + (-1) * f) by lia.
    rewrite Z.div_add by lia. lia. }
  simpl List.length. rewrite Nat2Z.inj_succ.
  destruct (date_leb next until) eqn:Enext.
  - specialize (IH Hv' Hu eq_refl).
    replace (month_index until - month_index next) with (x - f) in IH
      by (unfold x; lia).
    rewrite Hq in IH. lia.
  - destruct (date_leb_false_index next until ltac:(lia) ltac:(lia) Enext)
      as [Hge Hgt].
    assert (Htl : tl = [])
      by (inversion Hs as [c Hc | c n' tl' Hc]; subst; congruence).
    rewrite Htl. simpl List.length.
    assert (0 <= x / f) by (apply Z.div_pos; lia).
    split; [| split].
    + assert (x / f <= 1); [| lia].
      apply Z.div_le_upper_bound; lia.
    + lia.
    + intros Hd. assert (x / f = 0); [| lia].
      apply Z.div_small. lia.
Qed.

(** Along a schedule the month advances by [f] per date; the day never
    exceeds the day of the first date and never falls below the 28th
    unless the first date does. *)
Lemma schedule_nth (f : Z) (until cur : date) (tl : list date) :
  0 < f ->
  schedule f until cur tl ->
  date_valid cur = true ->
  forall (k : nat) (e : date),
    nth_error tl k = Some e ->
    month_index e = month_index cur + f * Z.of_nat k /\
    Z.min 28 (day cur) <= day e <= day cur.
Proof.
  intros Hf. induction 1 as [cur Hle | cur next tl Hle Hadd Hs IH];
    intros Hv k e Hk.
  - now destruct k.
  - destruct k as [| k]; simpl in Hk.
    + injection Hk as <-. lia.
    + destruct (step_forward f Hf _ _ Hv Hadd) as (Hv' & Hi & _ & Hnext).
      destruct (IH Hv' k e Hk) as [IHi IHd].
      pose proof Hv as Hv0. apply date_valid_spec in Hv0.
      assert (Hday : Z.min 28 (day cur) <= day next <= day cur).
      { subst next.
        destruct (months_after_spec cur f ltac:(lia)) as (Hm' & _ & ->).
        pose proof (days_in_month_bounds (year (months_after cur f)) _ Hm').
        lia. }
      lia.
Qed.

(** X1: for a positive frequency and a first date within the horizon, the
    list that [get_due_dates] returns starts with the first date, and its
    length is [q] or [q + 1], where [q] is the number of whole periods of
    [f] months between the month of the first date and the month of the
    horizon; it is [q + 1] whenever the day of the first date is at most
    the day of the horizon. *)
Theorem get_due_dates_count (start horizon : date) (f : Z) (ds : list date) :
  0 < f -> date_valid start = true -> date_valid horizon = true ->
  date_leb start horizon = true ->
  get_due_dates start f horizon = Returned ds ->
  hd_error ds = Some start /\
  (month_index horizon - month_index start) / f <= Z.of_nat (List.length ds) /\
  Z.of_nat (List.length ds) <=
    (month_index horizon - month_index start) / f + 1 /\
  (day start <= day horizon ->
   Z.of_nat (List.length ds) =
     (month_index horizon - month_index start) / f + 1).
Proof.
  intros Hf Hv Hh Hle Hds. apply get_due_dates_schedule in Hds.
  split.
  - inversion Hds; subst; [congruence | reflexivity].
  - now apply schedule_count.
Qed.

Lemma get_due_dates_count_witness :
  hd_error [mkdate 2024 1 31; mkdate 2024 2 29; mkdate 2024 3 29] =
    Some (mkdate 2024 1 31) /\
  (month_index (mkdate 2024 3 30) - month_index (mkdate 2024 1 31)) / 1 <=
    Z.of_nat (List.length [mkdate 2024 1 31; mkdate 2024 2 29; mkdate 2024 3 29]) /\
  Z.of_nat (List.length [mkdate 2024 1 31; mkdate 2024 2 29; mkdate 2024 3 29]) <=
    (month_index (mkdate 2024 3 30) - month_index (mkdate 2024 1 31)) / 1 + 1 /\
  (day (mkdate 2024 1 31) <= day (mkdate 2024 3 30) ->
   Z.of_nat (List.length [mkdate 2024 1 31; mkdate 2024 2 29; mkdate 2024 3 29]) =
     (month_index (mkdate 2024 3 30) - month_index (mkdate 2024 1 31)) / 1 + 1).
Proof.
  apply (get_due_dates_count (mkdate 2024 1 31) (mkdate 2024 3 30) 1);
    by_computation.
Defined.

(** X2: in the list that [get_due_dates] returns for a positive
    frequency, the date at position [k] lies [k * f] months after the
    month of the first date; its day of the month is never later than the
    day of the first date, and never earlier than the 28th unless it is
    the day of the first date. *)
Theorem get_due_dates_nth (start horizon : date) (f : Z) (ds : list date)
    (k : nat) (e : date) :
  0 < f -> date_valid start = true ->
  get_due_dates start f horizon = Returned ds ->
  nth_error ds k = Some e ->
  month_index e = month_index start + f * Z.of_nat k /\
  Z.min 28 (day start) <= day e <= day start.
Proof.
  intros Hf Hv Hds Hk. apply get_due_dates_schedule in Hds.
  eapply schedule_nth; eauto.
Qed.

Lemma get_due_dates_nth_witness :
  month_index (mkdate 2024 3 29) = month_index (mkdate 2024 1 31) + 1 * Z.of_nat 2 /\
  Z.min 28 (day (mkdate 2024 1 31)) <= day (mkdate 2024 3 29) <=
    day (mkdate 2024 1 31).
Proof.
  apply (get_due_dates_nth (mkdate 2024 1 31) (mkdate 2024 3 31) 1
           [mkdate 2024 1 31; mkdate 2024 2 29; mkdate 2024 3 29] 2);
    by_computation.
Defined.

(* ================================================================== *)
(** * Days between dates *)
(* ================================================================== *)

Import Ordinals.

Lemma toordinal_month_ordinal (dt : date) :
  1 <= month dt <= 12 ->
  toordinal dt = month_ordinal (month_index dt) + day dt.
Proof.
  intros Hm. unfold toordinal, month_ordinal, month_index.
  replace ((year dt * 12 + (month dt - 1)) / 12) with (year dt)
    by (apply Z.div_unique with (r := month dt - 1); lia).
  replace ((year dt * 12 + (month dt - 1)) mod 12) with (month dt - 1)
    by (apply Z.mod_unique with (q := year dt); lia).
  replace (month dt - 1 + 1) with (month dt) by lia. reflexivity.
Qed.

Lemma days_before_year_succ (y : Z) :
  days_before_year (y + 1) =
  days_before_year y + 365 + (if isleap y then 1 else 0).
Proof.
  unfold days_before_year, isleap. cbv zeta.
  replace (y + 1 - 1) with y by lia.
  destruct (y mod 4 =? 0) eqn:E4; destruct (y mod 100 =? 0) eqn:E100;
    destruct (y mod 400 =? 0) eqn:E400; simpl;
    rewrite ?Z.eqb_eq, ?Z.eqb_neq in *;
    Z.div_mod_to_equations; lia.
Qed.

Lemma month_ordinal_succ (i : Z) :
  month_ordinal (i + 1) =
  month_ordinal i + days_in_month (i / 12) (i mod 12 + 1).
Proof.
  unfold month_ordinal.
  pose proof (Z.mod_pos_bound i 12 ltac:(lia)) as Hb.
  pose proof (Z.div_mod i 12 ltac:(lia)) as Hdm.
  destruct (Z.eq_dec (i mod 12) 11) as [E | E].
  - replace ((i + 1) / 12) with (i / 12 + 1)
      by (apply Z.div_unique with (r := 0); lia).
    replace ((i + 1) mod 12) with 0
      by (apply Z.mod_unique with (q := i / 12 + 1); lia).
    rewrite E, days_before_year_succ.
    unfold days_before_month, days_in_month. simpl.
    destruct (isleap (i / 12)), (isleap (i / 12 + 1)); simpl; lia.
  - replace ((i + 1) / 12) with (i / 12)
      by (apply Z.div_unique with (r := i mod 12 + 1); lia).
    replace ((i + 1) mod 12) with (i mod 12 + 1)
      by (apply Z.mod_unique with (q := i / 12); lia).
    assert (Hc : i mod 12 = 0 \/ i mod 12 = 1 \/ i mod 12 = 2 \/
                 i mod 12 = 3 \/ i mod 12 = 4 \/ i mod 12 = 5 \/
                 i mod 12 = 6 \/ i mod 12 = 7 \/ i mod 12 = 8 \/
                 i mod 12 = 9 \/ i mod 12 = 10) by lia.
    unfold days_before_month, days_in_month.
    repeat (destruct Hc as [-> | Hc]); try rewrite Hc; simpl;
      destruct (isleap (i / 12)); simpl; lia.
Qed.

Lemma month_ordinal_mono (n : nat) (i : Z) :
  month_ordinal i <= month_ordinal (i + Z.of_nat n).
Proof.
  induction n as [| n IH].
  - rewrite Z.add_0_r. lia.
  - replace (i + Z.of_nat (S n)) with (i + Z.of_nat n + 1) by lia.
    rewrite month_ordinal_succ.
    pose proof (Z.mod_pos_bound (i + Z.of_nat n) 12 ltac:(lia)).
    pose proof (days_in_month_bounds ((i + Z.of_nat n) / 12)
                  ((i + Z.of_nat n) mod 12 + 1) ltac:(lia)).
    lia.
Qed.

(** A date moved by one month or more is at least 28 days later. *)
Lemma months_after_days (dt : date) (n : Z) :
  date_valid dt = true -> 0 < n ->
  28 <= days_between (months_after dt n) dt.
Proof.
  intros Hv Hn. apply date_valid_spec in Hv. destruct Hv as (Hy & Hm & Hd).
  destruct (months_after_spec dt n Hm) as (Hm' & Hi & Hday).
  unfold days_between.
  rewrite (toordinal_month_ordinal _ Hm'), (toordinal_month_ordinal _ Hm), Hi.
  pose proof (month_ordinal_mono (Z.to_nat (n - 1)) (month_index dt + 1)) as Hmono.
  rewrite Z2Nat.id in Hmono by lia.
  replace (month_index dt + 1 + (n - 1)) with (month_index dt + n) in Hmono
    by lia.
  rewrite month_ordinal_succ in Hmono.
  assert (Hy' : month_index dt / 12 = year dt)
    by (unfold month_index; symmetry;
        apply Z.div_unique with (r := month dt - 1); lia).
  assert (Hm'' : month_index dt mod 12 + 1 = month dt)
    by (unfold month_index;
        rewrite <- (Z.mod_unique (year dt * 12 + (month dt - 1)) 12
                      (year dt) (month dt - 1)); lia).
  rewrite Hy', Hm'' in Hmono.
  pose proof (days_in_month_bounds (year dt) _ Hm).
  pose proof (days_in_month_bounds (year (months_after dt n)) _ Hm').
  lia.
Qed.

(* ================================================================== *)
(** * The status in terms of the lease start and the current date *)
(* ================================================================== *)

Lemma date_ltb_asym (a b : date) :
  date_ltb a b = true -> date_ltb b a = false.
Proof. cmp_cases; intros; try reflexivity; try discriminate; lia. Qed.

Lemma date_ltb_total (a b : date) :
  date_ltb a b = false -> date_ltb b a = false -> a = b.
Proof.
  intros H1 H2. apply date_leb_antisym.
  - rewrite date_leb_ltb, H2. reflexivity.
  - rewrite date_leb_ltb, H1. reflexivity.
Qed.

(** On the horizon itself the schedule is the first date alone. *)
Lemma schedule_same_day (f : Z) (cur : date) (tl : list date) :
  0 < f -> date_valid cur = true ->
  schedule f cur cur tl -> tl = [cur].
Proof.
  intros Hf Hv Hs.
  inversion Hs as [c Hle | c next tl' Hle Hadd Hs']; subst.
  - now rewrite date_leb_refl in Hle.
  - f_equal. destruct (step_forward f Hf _ _ Hv Hadd) as (_ & _ & Hlt & _).
    inversion Hs' as [c Hle' | c next' tl'' Hle' Hadd' Hs'']; subst;
      [reflexivity |].
    rewrite date_leb_ltb, Hlt in Hle'. discriminate.
Qed.

(** The status that [calculate_status] returns, without the schedule. *)
Lemma calculate_status_closed_form (w : world) (row : tenant_row)
    (b : Q) (s : status) :
  date_valid (start row) = true ->
  calculate_status w row = Returned (b, s) ->
  s = (if Qle_bool b 0 then Paid
       else if date_ltb (start row) (today w) then Overdue
       else if date_ltb (today w) (start row) &&
               (days_between (start row) (today w) <=? 7) then DueSoon
       else Unpaid) /\
  (date_ltb (today w) (start row) = true ->
   (b == - paid_total (payments w) (tid row))%Q).
Proof.
  intros Hv. pose proof (freq_map_positive (freq row)) as Hf.
  unfold calculate_status. cbv zeta.
  destruct (get_due_dates _ _ _) as [ds | e |] eqn:Hds;
    cbv beta iota delta [bind]; try discriminate.
  destruct (date_ltb (today w) (start row)) eqn:Efuture.
  - (* the lease has not started *)
    rewrite get_due_dates_after_horizon in Hds by assumption.
    injection Hds as <-.
    rewrite (date_ltb_asym _ _ Efuture).
    assert (Hbal : (expected_amount [] (rent row) -
                    paid_total (payments w) (tid row) ==
                    - paid_total (payments w) (tid row))%Q)
      by (unfold expected_amount; simpl; ring).
    remember (expected_amount [] (rent row) -
              paid_total (payments w) (tid row))%Q as bal.
    unfold determine_status. simpl existsb. simpl List.length.
    rewrite Z.mul_0_r, date_add_Some, months_after_0; auto;
      [| pose proof (date_valid_month_index _ Hv); lia].
    cbv beta iota delta [bind or_raise].
    destruct (Qle_bool bal 0) eqn:Eb; simpl andb.
    + intros [= <- <-]. rewrite Eb. now split.
    + destruct (days_between (start row) (today w) <=? 7);
        intros [= <- <-]; rewrite Eb; now split.
  - destruct (date_ltb (start row) (today w)) eqn:Epast.
    + (* the lease started before today *)
      pose proof (get_due_dates_schedule _ _ _ _ Hds) as Hs.
      assert (Hhd : exists tl, ds = start row :: tl).
      { inversion Hs as [c Hle | c next tl Hle Hadd Hs']; subst; eauto.
        rewrite (date_ltb_le _ _ Epast) in Hle. discriminate. }
      destruct Hhd as [tl ->].
      remember (expected_amount (start row :: tl) (rent row) -
                paid_total (payments w) (tid row))%Q as bal.
      unfold determine_status. simpl existsb. rewrite Epast. simpl orb.
      destruct (Qle_bool bal 0) eqn:Eb; cbv beta iota delta [bind];
        intros [= <- <-]; rewrite Eb; (split; [reflexivity | discriminate]).
    + (* the lease starts today *)
      pose proof (date_ltb_total _ _ Epast Efuture) as Heq.
      rewrite <- Heq in *.
      pose proof (get_due_dates_schedule _ _ _ _ Hds) as Hs.
      apply schedule_same_day in Hs; auto. subst ds.
      remember (expected_amount [start row] (rent row) -
                paid_total (payments w) (tid row))%Q as bal.
      unfold determine_status. simpl existsb. rewrite date_ltb_irrefl.
      simpl orb. simpl List.length. rewrite Z.mul_1_r.
      rewrite date_add_Some;
        [| assumption
         | pose proof (next_due_exists _ _ _ _ Hf Hv Hds) as Hn;
           simpl List.length in Hn; rewrite Z.mul_1_r in Hn;
           destruct (date_add_inv _ _ _ Hv Hn) as (_ & Hv' & Hi);
           pose proof (date_valid_month_index _ Hv');
           pose proof (date_valid_month_index _ Hv); lia].
      cbv beta iota delta [bind or_raise].
      pose proof (months_after_days (start row) _ Hv Hf) as Hdays.
      destruct (days_between _ (start row) <=? 7) eqn:E7;
        [apply Z.leb_le in E7; lia |].
      destruct (Qle_bool bal 0) eqn:Eb; intros [= <- <-]; rewrite Eb;
        (split; [reflexivity | discriminate]).
Qed.

(** X3: whenever [calculate_status] returns, the status is decided by the
    sign of the balance and the position of the lease start relative to
    the current date alone: [Paid] exactly when the balance is at most 0;
    otherwise [Overdue] exactly when the lease started before today,
    [DueSoon] exactly when it starts in at most 7 days from now, and
    [Unpaid] exactly when it starts today or in more than 7 days.  The
    status is never [Partial]. *)
Theorem calculate_status_by_dates (w : world) (row : tenant_row)
    (b : Q) (s : status) :
  date_valid (start row) = true ->
  calculate_status w row = Returned (b, s) ->
  (s = Paid <-> (b <= 0)%Q) /\
  (s = Overdue <->
   ~ (b <= 0)%Q /\ date_ltb (start row) (today w) = true) /\
  (s = DueSoon <->
   ~ (b <= 0)%Q /\ date_ltb (today w) (start row) = true /\
   days_between (start row) (today w) <= 7) /\
  (s = Unpaid <->
   ~ (b <= 0)%Q /\ date_ltb (start row) (today w) = false /\
   (date_ltb (today w) (start row) = true ->
    7 < days_between (start row) (today w))) /\
  s <> Partial.
Proof.
  intros Hv Hcalc.
  destruct (calculate_status_closed_form _ _ _ _ Hv Hcalc) as [Hs _].
  assert (Hb : Qle_bool b 0 = true <-> (b <= 0)%Q) by apply Qle_bool_iff.
  assert (Hasym : date_ltb (start row) (today w) = true ->
                  date_ltb (today w) (start row) = false)
    by apply date_ltb_asym.
  assert (H7 : (days_between (start row) (today w) <=? 7) = true <->
               days_between (start row) (today w) <= 7) by apply Z.leb_le.
  destruct (Qle_bool b 0); [| destruct (date_ltb (start row) (today w));
    [| destruct (date_ltb (today w) (start row)); simpl in Hs;
       [destruct (days_between (start row) (today w) <=? 7) |]]];
    subst s;
    repeat split; intros; try discriminate;
      intuition (try discriminate; try congruence; try lia).
Qed.

Lemma calculate_status_by_dates_witness :
  (Overdue = Paid <-> (4000 <= 0)%Q) /\
  (Overdue = Overdue <->
   ~ (4000 <= 0)%Q /\ date_ltb (mkdate 2024 1 1) (mkdate 2024 4 1) = true) /\
  (Overdue = DueSoon <->
   ~ (4000 <= 0)%Q /\ date_ltb (mkdate 2024 4 1) (mkdate 2024 1 1) = true /\
   days_between (mkdate 2024 1 1) (mkdate 2024 4 1) <= 7) /\
  (Overdue = Unpaid <->
   ~ (4000 <= 0)%Q /\ date_ltb (mkdate 2024 1 1) (mkdate 2024 4 1) = false /\
   (date_ltb (mkdate 2024 4 1) (mkdate 2024 1 1) = true ->
    7 < days_between (mkdate 2024 1 1) (mkdate 2024 4 1))) /\
  Overdue <> Partial.
Proof.
  apply (calculate_status_by_dates (mkworld (mkdate 2024 4 1) [])
           Examples.tenant_a 4000 Overdue); by_computation.
Defined.

Lemma totalPaid_nonneg (l : list Q) :
  Forall (fun a => (0 <= a)%Q) l -> (0 <= Spec.totalPaid l)%Q.
Proof.
  induction 1 as [| a l Ha _ IH]; simpl.
  - apply Qle_refl.
  - replace 0%Q with (0 + 0)%Q by reflexivity. now apply Qplus_le_compat.
Qed.

Lemma paid_total_nonneg (tbl : list payment_row) (t : Z) :
  Forall (fun p => (0 <= amount_paid p)%Q) tbl ->
  (0 <= paid_total tbl t)%Q.
Proof.
  intros Hall. rewrite paid_total_sum. apply totalPaid_nonneg.
  apply Forall_map. apply Forall_forall. intros p Hp.
  apply filter_In in Hp. rewrite Forall_forall in Hall. now apply Hall.
Qed.


Lemma dict_get_missing (key : string) :
  ~ In key (map fst freq_map) -> dict_get freq_map key 1 = 1.
Proof.
  unfold freq_map. cbn [map fst In dict_get]. intros Hnot.
  repeat match goal with
  | |- context [String.eqb ?k key] =>
      destruct (String.eqb_spec k key); [exfalso; apply Hnot; tauto |]
  end.
  reflexivity.
Qed.

(** X5: a frequency name that is not a key of [freq_map] is treated as
    ["Monthly"]: the tenant gets the balance and status of the same tenant
    with a monthly frequency, and no error. *)
Theorem unknown_frequency_is_monthly (w : world) (row : tenant_row) :
  ~ In (freq row) (map fst freq_map) ->
  calculate_status w row =
  calculate_status w
    (mktenant (tid row) (unit_no row) (name row) (phone row) (start row)
       (end_date row) (rent row) "Monthly" (ttype row)).
Proof.
  intros Hnot. unfold calculate_status. cbv zeta.
  cbn [Tracker.freq Tracker.start Tracker.rent Tracker.tid].
  rewrite (dict_get_missing _ Hnot). reflexivity.
Qed.

Lemma unknown_frequency_is_monthly_witness :
  calculate_status (mkworld (mkdate 2024 4 1) [])
    (mktenant 7 "A1" "Tenant" "0100" (mkdate 2024 1 1) None 1000 "Weekly"
       "Residential") =
  calculate_status (mkworld (mkdate 2024 4 1) []) Examples.tenant_a.
Proof.
  apply (unknown_frequency_is_monthly (mkworld (mkdate 2024 4 1) [])
           (mktenant 7 "A1" "Tenant" "0100" (mkdate 2024 1 1) None 1000
              "Weekly" "Residential")).
  vm_compute. intuition discriminate.
Defined.

(* ================================================================== *)
(** * The forms: recording a payment *)
(* ================================================================== *)

Import App.

Lemma split_head_digits (d : Decimal.uint) (rest : string) :
  split_head ":" (DecimalString.NilEmpty.string_of_uint d ++ String ":" rest) =
  DecimalString.NilEmpty.string_of_uint d.
Proof.
  induction d; simpl; try (now rewrite IHd); reflexivity.
Qed.

(** The text of an integer has no colon: cutting at the first colon after
    it gives the text back. *)
Lemma split_head_py_str (n : Z) (rest : string) :
  split_head ":" (py_str n ++ String ":" rest) = py_str n.
Proof.
  unfold py_str. destruct n as [| p | p]; simpl Z.to_int.
  - reflexivity.
  - unfold NilZero.string_of_int, NilZero.string_of_uint.
    pose proof (DecimalPos.Unsigned.to_uint_nonnil p) as Hnil.
    destruct (Pos.to_uint p) eqn:E; try congruence;
      rewrite <- E; apply split_head_digits.
  - unfold NilZero.string_of_int, NilZero.string_of_uint.
    pose proof (DecimalPos.Unsigned.to_uint_nonnil p) as Hnil.
    destruct (Pos.to_uint p) eqn:E; try congruence;
      rewrite <- E; simpl; f_equal; apply split_head_digits.
Qed.

Lemma int_of_decimal_py_str (n : Z) :
  Literals.int_of_decimal (py_str n) = Some n.
Proof.
  unfold Literals.int_of_decimal, py_str.
  rewrite NilZero.isi.
  - simpl. now rewrite DecimalZ.of_to.
  - destruct n; simpl; try discriminate.
    intros [= H]. now apply DecimalPos.Unsigned.to_uint_nonnil in H.
  - destruct n; simpl; try discriminate.
    intros [= H]. now apply DecimalPos.Unsigned.to_uint_nonnil in H.
Qed.

Lemma filter_app_one (keep : payment_row -> bool) (l : list payment_row)
    (p : payment_row) :
  filter keep (l ++ [p]) = filter keep l ++ (if keep p then [p] else []).
Proof. rewrite filter_app. reflexivity. Qed.

Lemma totalPaid_app (l1 l2 : list Q) :
  (Spec.totalPaid (l1 ++ l2) == Spec.totalPaid l1 + Spec.totalPaid l2)%Q.
Proof.
  induction l1 as [| a l1 IH]; simpl.
  - ring.
  - rewrite IH. ring.
Qed.

(** Appending a payment adds its amount to the total of its tenant and
    leaves the total of every other tenant as it is. *)
Lemma paid_total_append (tbl : list payment_row) (p : payment_row) (t : Z) :
  (tenant_id p = t ->
   (paid_total (tbl ++ [p]) t == paid_total tbl t + amount_paid p)%Q) /\
  (tenant_id p <> t -> paid_total (tbl ++ [p]) t = paid_total tbl t).
Proof.
  split; intros Ht.
  - rewrite !paid_total_sum, filter_app_one.
    apply Z.eqb_eq in Ht. rewrite Ht, map_app, totalPaid_app. simpl. ring.
  - unfold paid_total, select_sum_amount_paid. rewrite filter_app_one.
    apply Z.eqb_neq in Ht. rewrite Ht, app_nil_r. reflexivity.
Qed.

(** The text before the first colon of a payment label is the text of the
    tenant's id. *)
Lemma payment_label_head (r : tenant_row) :
  split_head ":" (payment_label r) = py_str (tid r).
Proof.
  unfold payment_label.
  change (py_str (tid r) ++ ": " ++ unit_no r ++ " - " ++ name r)%string
    with (py_str (tid r) ++
          String ":" (" " ++ unit_no r ++ " - " ++ name r))%string.
  apply split_head_py_str.
Qed.

Section AddPayment.

Variable py_int : string -> option Z.
Hypothesis py_int_str : forall n : Z, py_int (py_str n) = Some n.

(** What a successful "Add Payment" leaves in the database. *)
Lemma add_payment_inv (db db' : database) (rowid : Z) (r : tenant_row)
    (amount : Q) (pay_date : date) (method : string) :
  add_payment py_int db rowid (payment_label r) amount pay_date method =
    Some db' ->
  db_tenants db' = db_tenants db /\
  db_payments db' =
    db_payments db ++
    [mkpayment rowid (tid r) pay_date amount amount pay_date method].
Proof.
  unfold add_payment. rewrite payment_label_head, py_int_str.
  intros [= <-]. now split.
Qed.

(** X6: the payment recorded through the "Add Payment" form goes to the
    tenant whose label is selected, whatever the unit and the name in the
    label contain: the row appended to [payments] carries the tenant's id,
    the payment date as due date and the amount paid as amount due; table
    [tenants] and the earlier payments are kept. *)
Theorem add_payment_selected (db : database) (rowid : Z) (r : tenant_row)
    (amount : Q) (pay_date : date) (method : string) :
  add_payment py_int db rowid (payment_label r) amount pay_date method =
  Some (mkdb (db_tenants db)
          (db_payments db ++
             [mkpayment rowid (tid r) pay_date amount amount pay_date method])).
Proof.
  unfold add_payment.
  assert (Hhead : split_head ":" (payment_label r) = py_str (tid r))
    by apply payment_label_head.
  rewrite Hhead.
  assert (Hint : py_int (py_str (tid r)) = Some (tid r))
    by apply py_int_str.
  rewrite Hint. reflexivity.
Qed.

(** X7: a payment recorded for a tenant leaves the amount paid by every
    other tenant exactly as it was, and, when its amount is not negative,
    does not lower the amount paid by the tenant. *)
Theorem add_payment_paid_total (db db' : database) (rowid : Z)
    (r : tenant_row) (amount : Q) (pay_date : date) (method : string) :
  add_payment py_int db rowid (payment_label r) amount pay_date method =
    Some db' ->
  ((0 <= amount)%Q ->
   (paid_total (db_payments db) (tid r) <=
    paid_total (db_payments db') (tid r))%Q) /\
  (forall t : Z, t <> tid r ->
     paid_total (db_payments db') t = paid_total (db_payments db) t).
Proof.
  intros Hadd. apply add_payment_inv in Hadd. destruct Hadd as [_ ->].
  split.
  - intros Hamount.
    destruct (paid_total_append (db_payments db)
                (mkpayment rowid (tid r) pay_date amount amount pay_date method)
                (tid r)) as [Hgrow _].
    rewrite (Hgrow eq_refl). simpl amount_paid.
    setoid_replace (paid_total (db_payments db) (tid r))
      with (paid_total (db_payments db) (tid r) + 0)%Q at 1 by ring.
    apply Qplus_le_compat; [apply Qle_refl | assumption].
  - intros t Ht. apply paid_total_append. simpl. congruence.
Qed.

End AddPayment.

Lemma add_payment_selected_witness :
  add_payment Literals.int_of_decimal (mkdb [Examples.tenant_a] []) 1
    (payment_label Examples.tenant_a) 400 (mkdate 2024 1 3) "Cash" =
  Some (mkdb [Examples.tenant_a]
          [mkpayment 1 7 (mkdate 2024 1 3) 400 400 (mkdate 2024 1 3) "Cash"]).
Proof.
  apply (add_payment_selected Literals.int_of_decimal int_of_decimal_py_str
           (mkdb [Examples.tenant_a] []) 1 Examples.tenant_a 400
           (mkdate 2024 1 3) "Cash").
Defined.

Lemma add_payment_paid_total_witness :
  ((0 <= 600)%Q ->
   (paid_total [Examples.payment_1; Examples.payment_other] 7 <=
    paid_total
      [Examples.payment_1; Examples.payment_other;
       mkpayment 4 7 (mkdate 2024 2 2) 600 600 (mkdate 2024 2 2) "Cash"] 7)%Q) /\
  (forall t : Z, t <> 7 ->
     paid_total
       [Examples.payment_1; Examples.payment_other;
        mkpayment 4 7 (mkdate 2024 2 2) 600 600 (mkdate 2024 2 2) "Cash"] t =
     paid_total [Examples.payment_1; Examples.payment_other] t).
Proof.
  apply (add_payment_paid_total Literals.int_of_decimal int_of_decimal_py_str
           Table.db_distinct
           (mkdb (db_tenants Table.db_distinct)
              [Examples.payment_1; Examples.payment_other;
               mkpayment 4 7 (mkdate 2024 2 2) 600 600 (mkdate 2024 2 2)
                 "Cash"])
           4 Examples.tenant_a 600 (mkdate 2024 2 2) "Cash").
  vm_compute. reflexivity.
Defined.

(** The balance that [calculate_status] returns is the expected amount of
    the schedule minus the amount paid. *)
Lemma calculate_status_balance (w : world) (row : tenant_row)
    (b : Q) (s : status) :
  calculate_status w row = Returned (b, s) ->
  exists ds,
    get_due_dates (start row) (dict_get freq_map (freq row) 1) (today w) =
      Returned ds /\
    b = (expected_amount ds (rent row) -
         paid_total (payments w) (tid row))%Q.
Proof.
  unfold calculate_status. cbv zeta.
  destruct (get_due_dates _ _ _) as [ds | e |];
    cbv beta iota delta [bind]; try discriminate.
  destruct (determine_status _ _ _ _ _); try discriminate.
  intros [= <- <-]. now exists ds.
Qed.

(** Once the schedule exists, [calculate_status] returns. *)
Lemma calculate_status_returns (w : world) (row : tenant_row)
    (ds : list date) :
  date_valid (start row) = true ->
  get_due_dates (start row) (dict_get freq_map (freq row) 1) (today w) =
    Returned ds ->
  exists s,
    calculate_status w row =
    Returned ((expected_amount ds (rent row) -
               paid_total (payments w) (tid row))%Q, s).
Proof.
  intros Hv Hds. pose proof (freq_map_positive (freq row)) as Hf.
  pose proof (next_due_exists _ _ _ _ Hf Hv Hds) as Hnext.
  unfold calculate_status. cbv zeta. rewrite Hds.
  unfold determine_status. cbv beta iota delta [bind].
  destruct (Qle_bool _ 0); [eauto |].
  destruct (existsb _ ds); [eauto |].
  rewrite Hnext. cbv beta iota delta [bind or_raise].
  destruct (days_between _ (today w) <=? 7); eauto.
Qed.

(** X4: when no payment in the table has a negative amount (the forms
    only accept amounts from 0), [calculate_status] returns [Paid] for a
    lease that starts in the future, with the balance minus the amount
    paid; and on every day that leaves room in the calendar for one more
    period it returns, never with [DueSoon], and with [Unpaid] only on the
    very day the lease starts. *)
Theorem calculate_status_nonnegative_payments (w : world) (row : tenant_row) :
  date_valid (start row) = true ->
  Forall (fun p => (0 <= amount_paid p)%Q) (payments w) ->
  (date_ltb (today w) (start row) = true ->
   exists b : Q,
     calculate_status w row = Returned (b, Paid) /\
     (b == - paid_total (payments w) (tid row))%Q) /\
  (date_valid (today w) = true ->
   month_index (today w) + dict_get freq_map (freq row) 1 <=
     max_month_index ->
   exists (b : Q) (s : status),
     calculate_status w row = Returned (b, s) /\
     s <> DueSoon /\
     (s = Unpaid -> start row = today w)).
Proof.
  intros Hv Hall.
  pose proof (paid_total_nonneg _ (tid row) Hall) as Hpaid.
  pose proof (freq_map_positive (freq row)) as Hf.
  assert (Hpaid_future :
            forall b : Q,
              (b == - paid_total (payments w) (tid row))%Q ->
              Qle_bool b 0 = true).
  { intros b Hb. apply Qle_bool_iff. rewrite Hb.
    apply (Qopp_le_compat 0). exact Hpaid. }
  split.
  - intros Hfuture.
    pose proof (get_due_dates_after_horizon (start row)
                  (dict_get freq_map (freq row) 1) (today w) Hfuture) as Hds.
    destruct (calculate_status_returns w row [] Hv Hds) as [s Hcalc].
    destruct (calculate_status_closed_form _ _ _ _ Hv Hcalc) as [Hs Hb].
    specialize (Hb Hfuture).
    rewrite (Hpaid_future _ Hb) in Hs. subst s.
    eexists. split; [exact Hcalc | exact Hb].
  - intros Hu Hroom.
    destruct (get_due_dates_returns (start row)
                (dict_get freq_map (freq row) 1) (today w) Hf Hv Hu Hroom)
      as [ds Hds].
    destruct (calculate_status_returns w row ds Hv Hds) as [s Hcalc].
    destruct (calculate_status_closed_form _ _ _ _ Hv Hcalc) as [Hs Hb].
    eexists. exists s. split; [exact Hcalc |].
    pose proof (date_ltb_total (start row) (today w)) as Htoday.
    destruct (Qle_bool _ 0) eqn:Ele in Hs;
      [subst s; split; [discriminate | discriminate] |].
    destruct (date_ltb (start row) (today w)) eqn:Epast;
      [subst s; split; [discriminate | discriminate] |].
    destruct (date_ltb (today w) (start row)) eqn:Efuture.
    + rewrite (Hpaid_future _ (Hb eq_refl)) in Ele. discriminate.
    + simpl in Hs. subst s. split; [discriminate |].
      intros _. apply Htoday; reflexivity.
Qed.

Lemma calculate_status_nonnegative_payments_witness :
  (exists b : Q,
     calculate_status (mkworld (mkdate 2023 12 1) [Examples.payment_1])
       Examples.tenant_a = Returned (b, Paid) /\
     (b == - paid_total [Examples.payment_1] 7)%Q) /\
  (exists (b : Q) (s : status),
     calculate_status (mkworld (mkdate 2024 1 1) [Examples.payment_other])
       Examples.tenant_a = Returned (b, s) /\
     s <> DueSoon /\
     (s = Unpaid -> mkdate 2024 1 1 = mkdate 2024 1 1)).
Proof.
  split.
  - destruct (calculate_status_nonnegative_payments
                (mkworld (mkdate 2023 12 1) [Examples.payment_1])
                Examples.tenant_a) as [Hfuture _].
    + reflexivity.
    + repeat constructor. vm_compute. congruence.
    + apply Hfuture. reflexivity.
  - destruct (calculate_status_nonnegative_payments
                (mkworld (mkdate 2024 1 1) [Examples.payment_other])
                Examples.tenant_a) as [_ Hroom].
    + reflexivity.
    + repeat constructor. vm_compute. congruence.
    + apply Hroom; [reflexivity | vm_compute; congruence].
Defined.

Section AddPaymentStatus.

Variable py_int : string -> option Z.
Hypothesis py_int_str : forall n : Z, py_int (py_str n) = Some n.

(** X8: after a payment is recorded for a tenant, [calculate_status]
    still returns for that tenant; when the amount is not negative the new
    balance is not larger than the old one, and a tenant that was [Paid]
    stays [Paid]; and the balance and status of every other tenant are
    exactly what they were. *)
Theorem add_payment_lowers_balance (db db' : database) (today : date)
    (rowid : Z) (r : tenant_row) (amount : Q) (pay_date : date)
    (method : string) (b : Q) (s : status) :
  date_valid (start r) = true ->
  add_payment py_int db rowid (payment_label r) amount pay_date method =
    Some db' ->
  calculate_status (world_of db today) r = Returned (b, s) ->
  (exists (b' : Q) (s' : status),
     calculate_status (world_of db' today) r = Returned (b', s') /\
     ((0 <= amount)%Q -> (b' <= b)%Q /\ (s = Paid -> s' = Paid))) /\
  (forall x : tenant_row, tid x <> tid r ->
     calculate_status (world_of db' today) x =
     calculate_status (world_of db today) x).
Proof.
  intros Hv Hadd Hcalc.
  apply (add_payment_inv py_int py_int_str) in Hadd.
  destruct Hadd as [_ Hrows].
  assert (Hpaid : (paid_total (db_payments db') (tid r) ==
                   paid_total (db_payments db) (tid r) + amount)%Q)
    by (rewrite Hrows; now apply paid_total_append).
  assert (Hother : forall t : Z, t <> tid r ->
            paid_total (db_payments db') t = paid_total (db_payments db) t)
    by (intros t Ht; rewrite Hrows; apply paid_total_append; simpl;
        congruence).
  split.
  - destruct (calculate_status_balance _ _ _ _ Hcalc) as (ds & Hds & Hb).
    destruct (calculate_status_returns (world_of db' today) r ds Hv Hds)
      as [s' Hcalc'].
    simpl payments in *.
    assert (Hb' : (expected_amount ds (rent r) -
                   paid_total (db_payments db') (tid r) == b - amount)%Q)
      by (rewrite Hpaid, Hb; ring).
    eexists. exists s'. split; [exact Hcalc' |]. intros Hamount.
    assert (Hlower : (b - amount <= b)%Q).
    { setoid_replace b with (b - 0)%Q at 2 by ring.
      apply Qplus_le_compat; [apply Qle_refl |].
      now apply Qopp_le_compat. }
    split; [rewrite Hb'; exact Hlower |].
    destruct (calculate_status_closed_form _ _ _ _ Hv Hcalc') as [Hs' _].
    destruct (calculate_status_closed_form _ _ _ _ Hv Hcalc) as [Hs _].
    cbn [Tracker.today world_of] in Hs, Hs'.
    assert (Hiff : s' = Paid <-> (b - amount <= 0)%Q).
    { rewrite <- Hb', <- Qle_bool_iff.
      destruct (Qle_bool _ 0); [now subst s' |].
      split; [| discriminate]. subst s'.
      destruct (date_ltb (start r) today); [discriminate |].
      destruct (_ && _); discriminate. }
    intros Hpaid_before. apply Hiff.
    assert (Hle : (b <= 0)%Q).
    { apply Qle_bool_iff. destruct (Qle_bool b 0); [reflexivity |].
      exfalso. subst s.
      destruct (date_ltb (start r) today); [discriminate |].
      destruct (_ && _); discriminate. }
    eapply Qle_trans; eassumption.
  - intros x Hx. unfold calculate_status. cbv zeta. simpl payments.
    simpl Tracker.today. now rewrite (Hother (tid x) Hx).
Qed.

End AddPaymentStatus.

Lemma add_payment_lowers_balance_witness :
  (exists (b' : Q) (s' : status),
     calculate_status
       (world_of
          (mkdb [Examples.tenant_a; Table.tenant_b]
             [Table.payment_full; Examples.payment_other;
              mkpayment 6 7 (mkdate 2024 1 1) 400 400 (mkdate 2024 1 1) "Cash"])
          (mkdate 2024 1 1)) Examples.tenant_a = Returned (b', s') /\
     ((0 <= 400)%Q -> (b' <= 0)%Q /\ (Paid = Paid -> s' = Paid))) /\
  (forall x : tenant_row, tid x <> tid Examples.tenant_a ->
     calculate_status
       (world_of
          (mkdb [Examples.tenant_a; Table.tenant_b]
             [Table.payment_full; Examples.payment_other;
              mkpayment 6 7 (mkdate 2024 1 1) 400 400 (mkdate 2024 1 1) "Cash"])
          (mkdate 2024 1 1)) x =
     calculate_status
       (world_of
          (mkdb [Examples.tenant_a; Table.tenant_b]
             [Table.payment_full; Examples.payment_other])
          (mkdate 2024 1 1)) x).
Proof.
  apply (add_payment_lowers_balance Literals.int_of_decimal
           int_of_decimal_py_str
           (mkdb [Examples.tenant_a; Table.tenant_b]
              [Table.payment_full; Examples.payment_other]) _
           (mkdate 2024 1 1) 6 Examples.tenant_a 400 (mkdate 2024 1 1) "Cash"
           0 Paid); vm_compute; reflexivity.
Defined.

(* ================================================================== *)
(** * The forms: removing and adding a tenant *)
(* ================================================================== *)

Lemma is_active_set_end_date (t : Z) (d : date) (x : tenant_row) :
  is_active (set_end_date t d x) = is_active x && negb (tid x =? t).
Proof.
  unfold set_end_date. destruct (tid x =? t); simpl.
  - now rewrite andb_false_r.
  - now rewrite andb_true_r.
Qed.

Lemma set_end_date_other (t : Z) (d : date) (x : tenant_row) :
  tid x <> t -> set_end_date t d x = x.
Proof.
  intros H. unfold set_end_date. apply Z.eqb_neq in H. now rewrite H.
Qed.

Lemma tid_set_end_date (t : Z) (d : date) (x : tenant_row) :
  tid (set_end_date t d x) = tid x.
Proof. unfold set_end_date. now destruct (tid x =? t). Qed.

(** The tenants that are still active after the update. *)
Lemma active_after_update (t : Z) (d : date) (l : list tenant_row) :
  filter is_active (map (set_end_date t d) l) =
  filter (fun x => negb (tid x =? t)) (filter is_active l).
Proof.
  induction l as [| x l IH]; simpl; [reflexivity |].
  rewrite is_active_set_end_date.
  destruct (is_active x); simpl.
  - destruct (tid x =? t) eqn:E; simpl.
    + exact IH.
    + rewrite set_end_date_other by now apply Z.eqb_neq. now f_equal.
  - exact IH.
Qed.

(** A successful "Remove Tenant" ends the lease of the first active tenant
    with the selected label. *)
Lemma remove_tenant_Some (db db' : database) (today : date) (sel : string) :
  remove_tenant db today sel = Some db' ->
  exists r : tenant_row,
    In r (active db) /\ remove_label r = sel /\
    db' = mkdb (map (set_end_date (tid r) today) (db_tenants db))
               (db_payments db).
Proof.
  unfold remove_tenant.
  destruct (filter _ (active db)) as [| r rest] eqn:Ematch; [discriminate |].
  intros [= <-]. exists r.
  assert (Hin : In r (filter (fun r => String.eqb (remove_label r) sel)
                        (active db))) by (rewrite Ematch; now left).
  apply filter_In in Hin. rewrite String.eqb_eq in Hin. tauto.
Qed.

Lemma remove_tenant_active (db db' : database) (today : date) (sel : string) :
  remove_tenant db today sel = Some db' ->
  exists r : tenant_row,
    In r (active db) /\ remove_label r = sel /\
    db_payments db' = db_payments db /\
    active db' = filter (fun x => negb (tid x =? tid r)) (active db).
Proof.
  intros H. destruct (remove_tenant_Some _ _ _ _ H) as (r & Hr & Hl & ->).
  exists r. repeat split; auto. apply active_after_update.
Qed.

Lemma remove_tenant_selected (db : database) (today : date) (r : tenant_row) :
  In r (active db) -> remove_tenant db today (remove_label r) <> None.
Proof.
  intros Hr. unfold remove_tenant.
  destruct (filter _ (active db)) as [| r0 rest] eqn:Ematch; [| discriminate].
  assert (Hin : In r (filter (fun x => String.eqb (remove_label x)
                                         (remove_label r)) (active db)))
    by (apply filter_In; split; [assumption | apply String.eqb_refl]).
  now rewrite Ematch in Hin.
Qed.

(** The head of a filtered list is the first element of the list that
    passes the test. *)
Lemma filter_head {A : Type} (keep : A -> bool) (l : list A) (r : A)
    (rest : list A) :
  filter keep l = r :: rest ->
  exists before after : list A,
    l = before ++ r :: after /\
    (forall x, In x before -> keep x = false) /\ keep r = true.
Proof.
  induction l as [| a l IH]; simpl; [discriminate |].
  destruct (keep a) eqn:Ea.
  - intros [= -> _]. exists [], l. simpl. tauto.
  - intros Hl. destruct (IH Hl) as (before & after & -> & Hbefore & Hr).
    exists (a :: before), after. simpl. repeat split; auto.
    intros x [<- | Hx]; auto.
Qed.

(** The tenant whose lease a successful "Remove Tenant" ends, and the
    active tenants listed before it. *)
Lemma remove_tenant_first (db db' : database) (today : date) (sel : string) :
  remove_tenant db today sel = Some db' ->
  exists (r : tenant_row) (before after : list tenant_row),
    active db = before ++ r :: after /\
    (forall x, In x before -> remove_label x <> sel) /\
    remove_label r = sel /\
    db' = mkdb (map (set_end_date (tid r) today) (db_tenants db))
               (db_payments db).
Proof.
  unfold remove_tenant.
  destruct (filter _ (active db)) as [| r rest] eqn:Ematch; [discriminate |].
  intros [= <-].
  destruct (filter_head _ _ _ _ Ematch) as (before & after & Hsplit & Hb & Hr).
  exists r, before, after. repeat split; auto.
  - intros x Hx Hlabel. apply Hb in Hx. apply String.eqb_neq in Hx.
    now apply Hx.
  - now apply String.eqb_eq.
Qed.

(** X9: "Remove Tenant" fails, before any update, exactly when no active
    tenant has the selected label.  Otherwise it ends the lease of the
    first active tenant with that label, the one before which no active
    tenant has the label: the payments and the number of tenant rows are
    kept, the rows with another id are unchanged, the rows with that id get
    today as end date, and the active tenants are the former ones without
    that id. *)
Theorem remove_tenant_effect (db : database) (today : date) (sel : string) :
  (remove_tenant db today sel = None <->
   forall x, In x (active db) -> remove_label x <> sel) /\
  (forall db' : database,
     remove_tenant db today sel = Some db' ->
     exists (r : tenant_row) (before after : list tenant_row),
       active db = before ++ r :: after /\
       (forall x, In x before -> remove_label x <> sel) /\
       remove_label r = sel /\
       db_payments db' = db_payments db /\
       List.length (db_tenants db') = List.length (db_tenants db) /\
       active db' = filter (fun x => negb (tid x =? tid r)) (active db) /\
       (forall x, In x (db_tenants db) -> tid x <> tid r ->
                  In x (db_tenants db')) /\
       (forall x, In x (db_tenants db') -> tid x = tid r ->
                  end_date x = Some today)).
Proof.
  split.
  - split.
    + intros Hnone x Hx <-. now apply (remove_tenant_selected db today x).
    + intros Hall.
      destruct (remove_tenant db today sel) as [db' |] eqn:E; [| reflexivity].
      destruct (remove_tenant_Some _ _ _ _ E) as (r & Hr & Hl & _).
      now destruct (Hall r Hr).
  - intros db' Hsome.
    destruct (remove_tenant_first _ _ _ _ Hsome)
      as (r & before & after & Hsplit & Hbefore & Hl & ->).
    exists r, before, after. simpl db_payments. simpl db_tenants.
    repeat split; auto.
    + apply length_map.
    + apply active_after_update.
    + intros x Hx Hne. apply in_map_iff. exists x.
      split; [now apply set_end_date_other | assumption].
    + intros x Hx Hid. apply in_map_iff in Hx.
      destruct Hx as (y & <- & Hy). rewrite tid_set_end_date in Hid.
      unfold set_end_date. apply Z.eqb_eq in Hid. now rewrite Hid.
Qed.

Lemma NoDup_map_inj {A B : Type} (g : A -> B) (l : list A) (a b : A) :
  NoDup (map g l) -> In a l -> In b l -> g a = g b -> a = b.
Proof.
  induction l as [| x l IH]; simpl; intros Hnd Ha Hb Hg; [tauto |].
  inversion Hnd as [| y l' Hnotin Hnd']; subst.
  destruct Ha as [-> | Ha], Hb as [-> | Hb]; auto.
  - exfalso. apply Hnotin. rewrite Hg. now apply in_map.
  - exfalso. apply Hnotin. rewrite <- Hg. now apply in_map.
Qed.

Lemma active_incl (db : database) (x : tenant_row) :
  In x (active db) -> In x (db_tenants db).
Proof. unfold active. intros H. now apply filter_In in H. Qed.

(** X10: when the active tenants have distinct labels and the tenants
    distinct ids, selecting the label of an active tenant removes that
    tenant and no other: afterwards the active tenants are the former ones
    except that tenant, and the payments are as before. *)
Theorem remove_tenant_unique (db : database) (today : date) (r : tenant_row) :
  NoDup (map remove_label (active db)) ->
  NoDup (map tid (db_tenants db)) ->
  In r (active db) ->
  exists db' : database,
    remove_tenant db today (remove_label r) = Some db' /\
    db_payments db' = db_payments db /\
    (forall x, In x (active db') <-> In x (active db) /\ x <> r).
Proof.
  intros Hlabels Hids Hr.
  destruct (remove_tenant db today (remove_label r)) as [db' |] eqn:E.
  - destruct (remove_tenant_active _ _ _ _ E)
      as (r0 & Hr0 & Hlabel & Hpay & Hact).
    assert (r0 = r)
      by (apply (NoDup_map_inj remove_label (active db)); assumption).
    subst r0.
    exists db'. split; [reflexivity |]. split; [assumption |].
    intros x. rewrite Hact, filter_In, negb_true_iff, Z.eqb_neq.
    split; intros [Hx Hne]; split; auto.
    + intros ->. now apply Hne.
    + intros Hid. apply Hne.
      apply (NoDup_map_inj tid (db_tenants db)); auto using active_incl.
  - exfalso. now apply (remove_tenant_selected db today r).
Qed.

Ltac distinct_by_computation :=
  vm_compute; repeat constructor; simpl; intuition discriminate.

Lemma remove_tenant_effect_witness :
  remove_tenant Table.db_twins (mkdate 2024 4 1) "A1 - Tenant" =
    Some (mkdb [Table.tenant_gone; Table.tenant_b;
                set_end_date 7 (mkdate 2024 4 1) Examples.tenant_a;
                Table.tenant_twin]
               [Examples.payment_1; Examples.payment_other]) /\
  active (mkdb [Table.tenant_gone; Table.tenant_b;
                set_end_date 7 (mkdate 2024 4 1) Examples.tenant_a;
                Table.tenant_twin]
               [Examples.payment_1; Examples.payment_other]) =
    [Table.tenant_b; Table.tenant_twin] /\
  exists (r : tenant_row) (before after : list tenant_row),
    active Table.db_twins = before ++ r :: after /\
    (forall x, In x before -> remove_label x <> "A1 - Tenant"%string) /\
    remove_label r = "A1 - Tenant"%string /\
    db_payments
      (mkdb [Table.tenant_gone; Table.tenant_b;
             set_end_date 7 (mkdate 2024 4 1) Examples.tenant_a;
             Table.tenant_twin]
            [Examples.payment_1; Examples.payment_other]) =
      db_payments Table.db_twins /\
    List.length [Table.tenant_gone; Table.tenant_b;
                 set_end_date 7 (mkdate 2024 4 1) Examples.tenant_a;
                 Table.tenant_twin] =
      List.length (db_tenants Table.db_twins) /\
    active (mkdb [Table.tenant_gone; Table.tenant_b;
                  set_end_date 7 (mkdate 2024 4 1) Examples.tenant_a;
                  Table.tenant_twin]
                 [Examples.payment_1; Examples.payment_other]) =
      filter (fun x => negb (tid x =? tid r)) (active Table.db_twins) /\
    (forall x, In x (db_tenants Table.db_twins) -> tid x <> tid r ->
               In x [Table.tenant_gone; Table.tenant_b;
                     set_end_date 7 (mkdate 2024 4 1) Examples.tenant_a;
                     Table.tenant_twin]) /\
    (forall x, In x [Table.tenant_gone; Table.tenant_b;
                     set_end_date 7 (mkdate 2024 4 1) Examples.tenant_a;
                     Table.tenant_twin] ->
               tid x = tid r -> end_date x = Some (mkdate 2024 4 1)).
Proof.
  split; [reflexivity |]. split; [reflexivity |].
  destruct (remove_tenant_effect Table.db_twins (mkdate 2024 4 1)
              "A1 - Tenant") as [_ Heffect].
  apply (Heffect (mkdb [Table.tenant_gone; Table.tenant_b;
                        set_end_date 7 (mkdate 2024 4 1) Examples.tenant_a;
                        Table.tenant_twin]
                       [Examples.payment_1; Examples.payment_other])).
  reflexivity.
Defined.

Lemma remove_tenant_unique_witness :
  exists db' : database,
    remove_tenant Table.db_distinct (mkdate 2024 4 1)
      (remove_label Examples.tenant_a) = Some db' /\
    db_payments db' = db_payments Table.db_distinct /\
    (forall x, In x (active db') <->
               In x (active Table.db_distinct) /\ x <> Examples.tenant_a).
Proof.
  apply (remove_tenant_unique Table.db_distinct (mkdate 2024 4 1)
           Examples.tenant_a).
  - distinct_by_computation.
  - distinct_by_computation.
  - right. left. reflexivity.
Defined.

(* ================================================================== *)
(** * The summary table and the detail view *)
(* ================================================================== *)

(** The summary of a list of tenants is the summary of its front followed
    by the summary of its back. *)
Lemma summary_rows_app_eq (w : world) (l1 l2 : list tenant_row) :
  summary_rows w (l1 ++ l2) =
  (rows1 <- summary_rows w l1 ;;
   rows2 <- summary_rows w l2 ;;
   Returned (rows1 ++ rows2)).
Proof.
  induction l1 as [| x l1 IH]; simpl.
  - now destruct (summary_rows w l2).
  - rewrite IH.
    destruct (calculate_status w x); cbv beta iota delta [bind];
      try reflexivity.
    destruct (summary_rows w l1); try reflexivity.
    now destruct (summary_rows w l2).
Qed.

Lemma summary_rows_app (w : world) (l1 l2 : list tenant_row)
    (rows : list summary_row) :
  summary_rows w (l1 ++ l2) = Returned rows <->
  exists rows1 rows2,
    summary_rows w l1 = Returned rows1 /\
    summary_rows w l2 = Returned rows2 /\ rows = rows1 ++ rows2.
Proof.
  rewrite summary_rows_app_eq.
  destruct (summary_rows w l1) as [r1 | |]; cbv beta iota delta [bind].
  - destruct (summary_rows w l2) as [r2 | |].
    + split.
      * intros [= <-]. now exists r1, r2.
      * now intros (rows1 & rows2 & [= <-] & [= <-] & ->).
    + split; [discriminate | intros (? & ? & _ & ? & _); discriminate].
    + split; [discriminate | intros (? & ? & _ & ? & _); discriminate].
  - split; [discriminate | intros (? & ? & ? & _); discriminate].
  - split; [discriminate | intros (? & ? & ? & _); discriminate].
Qed.

Lemma filter_other_ids (t : Z) (l : list tenant_row) :
  (forall x, In x l -> tid x <> t) ->
  filter (fun x => negb (tid x =? t)) l = l.
Proof.
  induction l as [| x l IH]; intros Hall; simpl; [reflexivity |].
  assert (E : (tid x =? t) = false)
    by (apply Z.eqb_neq, Hall; now left).
  rewrite E. simpl. f_equal. apply IH. intros y Hy. apply Hall. now right.
Qed.

(** With distinct ids, the rows of a table around one of its tenants. *)
Lemma split_at_tenant (l : list tenant_row) (r : tenant_row) :
  NoDup (map tid l) -> In r l ->
  exists l1 l2,
    l = l1 ++ r :: l2 /\
    filter (fun x => negb (tid x =? tid r)) l = l1 ++ l2.
Proof.
  intros Hnd Hr. destruct (in_split _ _ Hr) as (l1 & l2 & ->).
  exists l1, l2. split; [reflexivity |].
  rewrite map_app in Hnd. simpl in Hnd.
  pose proof (NoDup_remove_2 _ _ _ Hnd) as Hnotin.
  rewrite filter_app. simpl. rewrite Z.eqb_refl. simpl.
  rewrite !filter_other_ids; [reflexivity | |];
    intros x Hx Hid; apply Hnotin, in_or_app;
    [right | left]; rewrite <- Hid; now apply in_map.
Qed.

Lemma NoDup_map_filter {A B : Type} (g : A -> B) (keep : A -> bool)
    (l : list A) :
  NoDup (map g l) -> NoDup (map g (filter keep l)).
Proof.
  induction l as [| x l IH]; simpl; intros Hnd; [constructor |].
  inversion Hnd as [| y l' Hnotin Hnd']; subst.
  destruct (keep x); simpl; auto.
  constructor; auto.
  intros Hin. apply Hnotin. apply in_map_iff in Hin.
  destruct Hin as (z & Hz & Hin). apply filter_In in Hin.
  rewrite <- Hz. now apply in_map.
Qed.

(** X11: when the labels of the active tenants and the ids of the tenants
    are distinct and the summary can be computed, removing an active
    tenant deletes exactly the row of that tenant from the summary of the
    same day: the rows before it and after it are unchanged. *)
Theorem summary_after_removal (db : database) (today : date) (r : tenant_row)
    (rows : list summary_row) :
  NoDup (map remove_label (active db)) ->
  NoDup (map tid (db_tenants db)) ->
  In r (active db) ->
  summary db today = Returned rows ->
  exists (db' : database) (before after : list summary_row)
         (b : Q) (s : status),
    remove_tenant db today (remove_label r) = Some db' /\
    calculate_status (world_of db today) r = Returned (b, s) /\
    rows = before ++
           mkrow (unit_no r) (name r) (rent r) b (phone r) s :: after /\
    summary db' today = Returned (before ++ after).
Proof.
  intros Hlabels Hids Hr Hsum.
  destruct (remove_tenant db today (remove_label r)) as [db' |] eqn:E;
    [| exfalso; now apply (remove_tenant_selected db today r)].
  destruct (remove_tenant_active _ _ _ _ E)
    as (r0 & Hr0 & Hlabel & Hpay & Hact).
  assert (r0 = r)
    by (apply (NoDup_map_inj remove_label (active db)); assumption).
  subst r0.
  assert (Hids' : NoDup (map tid (active db)))
    by (apply NoDup_map_filter; assumption).
  destruct (split_at_tenant _ _ Hids' Hr) as (l1 & l2 & Hsplit & Hfilter).
  unfold summary in *. rewrite Hsplit in Hsum.
  apply summary_rows_app in Hsum.
  destruct Hsum as (rows1 & rows2 & H1 & H2 & ->).
  simpl in H2.
  destruct (calculate_status (world_of db today) r) as [[b s] | |] eqn:Ecalc;
    cbv beta iota delta [bind] in H2; try discriminate.
  destruct (summary_rows (world_of db today) l2) as [rows2' | |] eqn:E2;
    try discriminate.
  injection H2 as <-.
  exists db', rows1, rows2', b, s.
  split; [reflexivity |]. split; [reflexivity |]. split; [reflexivity |].
  assert (Hw : world_of db' today = world_of db today)
    by (unfold world_of; now rewrite Hpay).
  rewrite Hw, Hact, Hfilter. apply summary_rows_app. eauto.
Qed.

Lemma summary_after_removal_witness :
  summary
    (mkdb [Table.tenant_gone; Table.tenant_b;
           set_end_date 7 (mkdate 2024 4 1) Examples.tenant_a; Table.tenant_d]
          [Examples.payment_1; Examples.payment_other])
    (mkdate 2024 4 1) =
    Returned [mkrow "B2" "Other" 500 0 "0200" Paid;
              mkrow "C3" "Third" 750 750 "0400" Overdue] /\
  exists (db' : database) (before after : list summary_row)
         (b : Q) (s : status),
    remove_tenant Table.db_distinct (mkdate 2024 4 1)
      (remove_label Examples.tenant_a) = Some db' /\
    calculate_status (world_of Table.db_distinct (mkdate 2024 4 1))
      Examples.tenant_a = Returned (b, s) /\
    [mkrow "B2" "Other" 500 0 "0200" Paid;
     mkrow "A1" "Tenant" 1000 3600 "0100" Overdue;
     mkrow "C3" "Third" 750 750 "0400" Overdue] =
      before ++
      mkrow (unit_no Examples.tenant_a) (name Examples.tenant_a)
        (rent Examples.tenant_a) b (phone Examples.tenant_a) s :: after /\
    summary db' (mkdate 2024 4 1) = Returned (before ++ after).
Proof.
  split; [vm_compute; reflexivity |].
  apply (summary_after_removal Table.db_distinct (mkdate 2024 4 1)
           Examples.tenant_a).
  - distinct_by_computation.
  - distinct_by_computation.
  - right. left. reflexivity.
  - vm_compute. reflexivity.
Defined.

Lemma filter_none (keep : tenant_row -> bool) (l : list tenant_row) :
  (forall x, In x l -> keep x = false) -> filter keep l = [].
Proof.
  induction l as [| x l IH]; intros Hall; simpl; [reflexivity |].
  rewrite (Hall x) by now left. apply IH. intros y Hy. apply Hall. now right.
Qed.

Lemma map_set_end_date_other (t : Z) (d : date) (l : list tenant_row) :
  (forall x, In x l -> tid x <> t) -> map (set_end_date t d) l = l.
Proof.
  induction l as [| x l IH]; intros Hall; simpl; [reflexivity |].
  rewrite set_end_date_other by (apply Hall; now left).
  f_equal. apply IH. intros y Hy. apply Hall. now right.
Qed.

(** X12: a tenant added through "Add Tenant", with a key larger than the
    keys in the table, is active and last in the list.  If its label is the
    label of no tenant that was active, then removing it again through its
    label
    brings back the former list of active tenants; the rows of the other
    tenants and the payments are untouched, and the row of the tenant
    stays in the table with today as end date. *)
Theorem add_then_remove_tenant (db : database) (today : date) (rowid : Z)
    (unit_no name phone : string) (start_date : date) (rent : Q)
    (freq ttype : string) :
  (forall x, In x (active db) ->
             remove_label x <> (unit_no ++ " - " ++ name)%string) ->
  (forall x, In x (db_tenants db) -> tid x < rowid) ->
  active (add_tenant db rowid unit_no name phone start_date rent freq ttype) =
    active db ++
    [mktenant rowid unit_no name phone start_date None rent freq ttype] /\
  exists db' : database,
    remove_tenant
      (add_tenant db rowid unit_no name phone start_date rent freq ttype)
      today (unit_no ++ " - " ++ name)%string = Some db' /\
    active db' = active db /\
    db_payments db' = db_payments db /\
    db_tenants db' =
      db_tenants db ++
      [mktenant rowid unit_no name phone start_date (Some today) rent freq
         ttype].
Proof.
  intros Hlabel Hfresh.
  assert (Hactive :
    active (add_tenant db rowid unit_no name phone start_date rent freq ttype) =
    active db ++
    [mktenant rowid unit_no name phone start_date None rent freq ttype])
    by (unfold active, add_tenant; simpl db_tenants;
        now rewrite filter_app).
  split; [exact Hactive |].
  unfold remove_tenant. rewrite Hactive, filter_app.
  rewrite (filter_none _ (active db))
    by (intros x Hx; apply String.eqb_neq; now apply Hlabel).
  simpl filter. unfold remove_label at 1. simpl Tracker.unit_no.
  simpl Tracker.name. rewrite String.eqb_refl. simpl app.
  eexists. split; [reflexivity |]. simpl Tracker.tid.
  unfold add_tenant. simpl db_tenants. simpl db_payments.
  rewrite map_app, (map_set_end_date_other rowid today (db_tenants db))
    by (intros x Hx; specialize (Hfresh x Hx); lia).
  assert (Hended :
    set_end_date rowid today
      (mktenant rowid unit_no name phone start_date None rent freq ttype) =
    mktenant rowid unit_no name phone start_date (Some today) rent freq ttype)
    by (unfold set_end_date; simpl Tracker.tid; now rewrite Z.eqb_refl).
  simpl map. rewrite Hended.
  split; [| split; reflexivity].
  unfold active. simpl db_tenants. rewrite filter_app. simpl.
  now rewrite app_nil_r.
Qed.

Lemma add_then_remove_tenant_witness :
  active (add_tenant (mkdb [Examples.tenant_a] []) 8 "B2" "Other" "0200"
            (mkdate 2024 3 1) 500 "Quarterly" "Commercial") =
    active (mkdb [Examples.tenant_a] []) ++
    [mktenant 8 "B2" "Other" "0200" (mkdate 2024 3 1) None 500 "Quarterly"
       "Commercial"] /\
  exists db' : database,
    remove_tenant
      (add_tenant (mkdb [Examples.tenant_a] []) 8 "B2" "Other" "0200"
         (mkdate 2024 3 1) 500 "Quarterly" "Commercial")
      (mkdate 2024 4 1) ("B2" ++ " - " ++ "Other")%string = Some db' /\
    active db' = active (mkdb [Examples.tenant_a] []) /\
    db_payments db' = db_payments (mkdb [Examples.tenant_a] []) /\
    db_tenants db' =
      db_tenants (mkdb [Examples.tenant_a] []) ++
      [mktenant 8 "B2" "Other" "0200" (mkdate 2024 3 1)
         (Some (mkdate 2024 4 1)) 500 "Quarterly" "Commercial"].
Proof.
  apply (add_then_remove_tenant (mkdb [Examples.tenant_a] []) (mkdate 2024 4 1)
           8 "B2" "Other" "0200" (mkdate 2024 3 1) 500 "Quarterly"
           "Commercial").
  - intros x [<- | []]. vm_compute. discriminate.
  - intros x [<- | []]. vm_compute. reflexivity.
Defined.

Section DetailView.

Variable py_int : string -> option Z.
Hypothesis py_int_str : forall n : Z, py_int (py_str n) = Some n.

(** X13: when the unit of an active tenant is not empty and belongs,
    among the active tenants, to that tenant's id only, a payment recorded
    for the tenant (with a key larger than the keys in the table) shows up
    in the detail view of the unit as a new last line, after the lines
    that were listed before; its due date is the payment date and its
    amount due the amount paid. *)
Theorem detail_after_payment (db db' : database) (rowid : Z) (r : tenant_row)
    (amount : Q) (pay_date : date) (method : string) :
  In r (active db) ->
  unit_no r <> ""%string ->
  (forall x, In x (active db) -> unit_no x = unit_no r -> tid x = tid r) ->
  (forall p, In p (db_payments db) -> payment_id p < rowid) ->
  add_payment py_int db rowid (payment_label r) amount pay_date method =
    Some db' ->
  exists lines,
    detail_payments db (unit_no r) = Listed lines /\
    detail_payments db' (unit_no r) =
      Listed (lines ++ [(pay_date, amount, amount, pay_date, method)]).
Proof.
  intros Hr Hnonempty Hunit Hkeys Hadd.
  apply (add_payment_inv py_int py_int_str) in Hadd.
  destruct Hadd as [Htenants Hrows].
  unfold detail_payments, active. rewrite Htenants, Hrows.
  fold (active db).
  apply String.eqb_neq in Hnonempty. rewrite Hnonempty.
  destruct (filter (fun x => String.eqb (Tracker.unit_no x) (unit_no r))
              (active db)) as [| r0 rest] eqn:Ematch.
  - exfalso.
    assert (Hin : In r (filter (fun x => String.eqb (Tracker.unit_no x)
                                           (unit_no r)) (active db)))
      by (apply filter_In; split; [assumption | apply String.eqb_refl]).
    now rewrite Ematch in Hin.
  - assert (Hr0 : tid r0 = tid r).
    { assert (Hin : In r0 (filter (fun x => String.eqb (Tracker.unit_no x)
                                             (unit_no r)) (active db)))
        by (rewrite Ematch; now left).
      apply filter_In in Hin. destruct Hin as [Hin Heq].
      apply String.eqb_eq in Heq. now apply Hunit. }
    eexists. split; [reflexivity |].
    rewrite filter_app, map_app. simpl filter. simpl tenant_id.
    rewrite Hr0, Z.eqb_refl. reflexivity.
Qed.

End DetailView.

Lemma detail_after_payment_witness :
  exists lines,
    detail_payments (mkdb [Examples.tenant_a] [Examples.payment_1])
      (unit_no Examples.tenant_a) = Listed lines /\
    detail_payments
      (mkdb [Examples.tenant_a]
         [Examples.payment_1;
          mkpayment 2 7 (mkdate 2024 2 2) 600 600 (mkdate 2024 2 2) "Cash"])
      (unit_no Examples.tenant_a) =
      Listed (lines ++ [(mkdate 2024 2 2, 600%Q, 600%Q, mkdate 2024 2 2,
                         "Cash"%string)]).
Proof.
  apply (detail_after_payment Literals.int_of_decimal int_of_decimal_py_str
           (mkdb [Examples.tenant_a] [Examples.payment_1]) _ 2
           Examples.tenant_a 600 (mkdate 2024 2 2) "Cash").
  - left. reflexivity.
  - vm_compute. discriminate.
  - intros x [<- | []] _. reflexivity.
  - intros p [<- | []]. vm_compute. reflexivity.
  - vm_compute. reflexivity.
Defined.

(* ================================================================== *)
(** * More on the status of one payment record *)
(* ================================================================== *)

(** X14: the form stores [Paid] exactly when the remaining amount is zero,
    whatever the dates: a payment in full made after the due date is
    [Paid], not [Overdue].  The stored status is never [DueSoon]. *)
Theorem paid_iff_nothing_remains (amount_due amount_paid : Q)
    (due_date payment_date : date) :
  (add_payment_status amount_due amount_paid due_date payment_date = Paid <->
   (remaining amount_due amount_paid == 0)%Q) /\
  add_payment_status amount_due amount_paid due_date payment_date <> DueSoon.
Proof.
  unfold add_payment_status, remaining.
  destruct (Qeq_bool amount_paid amount_due) eqn:Edue.
  - apply Qeq_bool_eq in Edue. split; [| discriminate].
    split; [| reflexivity]. intros _. rewrite Edue. ring.
  - apply Qeq_bool_neq in Edue.
    assert (Hrem : ~ (amount_due - amount_paid == 0)%Q).
    { intros H. apply Edue.
      setoid_replace amount_paid with (amount_due - (amount_due - amount_paid))%Q
        by ring.
      rewrite H. ring. }
    destruct (Qeq_bool amount_paid 0);
      [| destruct (date_gtb payment_date due_date)];
      (split; [split; [discriminate | tauto] | discriminate]).
Qed.

(** X15: an installment whose amount due is not negative and that is paid
    beyond the amount due is never stored as [Paid] or [Unpaid]: its
    remaining amount is negative and its status is [Overdue] when the
    payment date is after the due date and [Partial] otherwise. *)
Theorem overpayment_is_not_paid (amount_due amount_paid : Q)
    (due_date payment_date : date) :
  (0 <= amount_due)%Q -> (amount_due < amount_paid)%Q ->
  (remaining amount_due amount_paid < 0)%Q /\
  add_payment_status amount_due amount_paid due_date payment_date =
    (if date_gtb payment_date due_date then Overdue else Partial).
Proof.
  intros Hdue Hover. unfold remaining, add_payment_status. split.
  - apply (Qplus_lt_l _ _ amount_paid). ring_simplify. exact Hover.
  - assert (E1 : Qeq_bool amount_paid amount_due = false).
    { destruct (Qeq_bool amount_paid amount_due) eqn:E; [| reflexivity].
      apply Qeq_bool_eq in E. rewrite E in Hover.
      now apply Qlt_irrefl in Hover. }
    assert (E2 : Qeq_bool amount_paid 0 = false).
    { destruct (Qeq_bool amount_paid 0) eqn:E; [| reflexivity].
      apply Qeq_bool_eq in E. rewrite E in Hover.
      exfalso. apply (Qlt_irrefl 0).
      eapply Qle_lt_trans; eassumption. }
    now rewrite E1, E2.
Qed.

Lemma overpayment_is_not_paid_witness :
  (remaining 1000 1200 < 0)%Q /\
  add_payment_status 1000 1200 (mkdate 2024 1 1) (mkdate 2024 1 1) =
    (if date_gtb (mkdate 2024 1 1) (mkdate 2024 1 1) then Overdue
     else Partial).
Proof.
  apply (overpayment_is_not_paid 1000 1200 (mkdate 2024 1 1) (mkdate 2024 1 1));
    vm_compute; congruence.
Defined.

Lemma paid_iff_nothing_remains_witness :
  add_payment_status 1000 1000 (mkdate 2024 1 1) (mkdate 2024 3 9) = Paid /\
  add_payment_status 1000 1000 (mkdate 2024 1 1) (mkdate 2024 3 9) <> DueSoon.
Proof.
  destruct (paid_iff_nothing_remains 1000 1000 (mkdate 2024 1 1)
              (mkdate 2024 3 9)) as [Hiff Hnever].
  split; [apply Hiff; reflexivity | exact Hnever].
Defined.

(* ================================================================== *)
(** * The schedule and the status as time passes *)
(* ================================================================== *)

(** X16: the due dates already generated do not change as the horizon
    moves on: when the call with a later horizon returns, the call with an
    earlier horizon returns a prefix of its list, and the dates that the
    later horizon adds are all after the earlier horizon. *)
Theorem get_due_dates_prefix (start : date) (f : Z) (h1 h2 : date)
    (ds2 : list date) :
  0 < f -> date_valid start = true ->
  date_leb h1 h2 = true ->
  get_due_dates start f h2 = Returned ds2 ->
  exists ds1 added,
    get_due_dates start f h1 = Returned ds1 /\
    ds2 = ds1 ++ added /\
    Forall (fun e => date_ltb h1 e = true) added.
Proof.
  intros Hf Hv Hh H2. unfold get_due_dates in *.
  destruct (loop_returns_schedule _ _ _ _ _ H2) as [Hs2 Hfuel].
  destruct (schedule_horizon_mono f h1 h2 start ds2 Hh Hs2)
    as (ds1 & added & Hs1 & ->).
  exists ds1, added. rewrite length_app in Hfuel.
  split; [apply schedule_loop; [assumption | lia] |].
  split; [reflexivity |].
  (* the dates of [added] come after the date on which the run for [h1]
     leaves the loop *)
  clear H2 Hfuel. revert Hv Hs2.
  induction Hs1 as [cur Hle | cur next tl Hle Hadd Hs IH]; intros Hv Hs2.
  - simpl in Hs2.
    pose proof (schedule_bounds f h2 Hf _ _ Hs2 Hv) as Hb.
    eapply Forall_impl; [| exact Hb].
    intros e (_ & He & _). rewrite date_ltb_leb.
    destruct (date_leb e h1) eqn:E; [| reflexivity].
    now rewrite (date_leb_trans _ _ _ He E) in Hle.
  - destruct (step_forward f Hf _ _ Hv Hadd) as (Hv' & _ & _ & _).
    inversion Hs2 as [c Hc | c next' tl' Hc Hadd' Hs2']; subst.
    apply IH; [assumption |]. congruence.
Qed.

Lemma get_due_dates_prefix_witness :
  exists ds1 added,
    get_due_dates (mkdate 2024 1 31) 1 (mkdate 2024 2 29) = Returned ds1 /\
    [mkdate 2024 1 31; mkdate 2024 2 29; mkdate 2024 3 29] = ds1 ++ added /\
    Forall (fun e => date_ltb (mkdate 2024 2 29) e = true) added.
Proof.
  apply (get_due_dates_prefix (mkdate 2024 1 31) 1 (mkdate 2024 2 29)
           (mkdate 2024 3 31)); by_computation.
Defined.

(** X17: for a rent that is not negative and an unchanged table of
    payments, the balance that [calculate_status] returns on a later day
    is not smaller than the one it returns on an earlier day, and a tenant
    that is [Overdue] on the earlier day is [Overdue] on the later day. *)
Theorem balance_grows_with_time (w1 w2 : world) (row : tenant_row)
    (b1 b2 : Q) (s1 s2 : status) :
  date_valid (start row) = true ->
  (0 <= rent row)%Q ->
  payments w1 = payments w2 ->
  date_leb (today w1) (today w2) = true ->
  calculate_status w1 row = Returned (b1, s1) ->
  calculate_status w2 row = Returned (b2, s2) ->
  (b1 <= b2)%Q /\ (s1 = Overdue -> s2 = Overdue).
Proof.
  intros Hv Hrent Hpay Hdays H1 H2.
  destruct (calculate_status_balance _ _ _ _ H1) as (ds1 & Hds1 & Hb1).
  destruct (calculate_status_balance _ _ _ _ H2) as (ds2 & Hds2 & Hb2).
  apply get_due_dates_schedule in Hds1, Hds2.
  destruct (schedule_horizon_mono _ _ _ _ _ Hdays Hds2)
    as (ds1' & added & Hs1 & ->).
  rewrite (schedule_det _ _ _ _ _ Hds1 Hs1) in *. clear Hds1.
  assert (Hb : (b1 <= b2)%Q).
  { rewrite Hb1, Hb2, Hpay. apply Qplus_le_compat; [| apply Qle_refl].
    unfold expected_amount. apply Qmult_le_compat_r; [| assumption].
    rewrite <- Zle_Qle, length_app. lia. }
  split; [exact Hb |].
  destruct (calculate_status_closed_form _ _ _ _ Hv H1) as [Hc1 _].
  destruct (calculate_status_closed_form _ _ _ _ Hv H2) as [Hc2 _].
  intros Hover. subst s1.
  destruct (Qle_bool b1 0) eqn:E1; [discriminate |].
  destruct (date_ltb (start row) (today w1)) eqn:Epast;
    [| destruct (_ && _); discriminate].
  assert (E2 : Qle_bool b2 0 = false).
  { destruct (Qle_bool b2 0) eqn:E2; [| reflexivity].
    apply Qle_bool_iff in E2.
    assert (Hle : Qle_bool b1 0 = true)
      by (apply Qle_bool_iff; eapply Qle_trans; eassumption).
    congruence. }
  rewrite E2, (date_ltb_leb_trans _ _ _ Epast Hdays) in Hc2. exact Hc2.
Qed.

Lemma balance_grows_with_time_witness :
  (1000 <= 4000)%Q /\ (Unpaid = Overdue -> Overdue = Overdue).
Proof.
  apply (balance_grows_with_time (mkworld (mkdate 2024 1 1) [])
           (mkworld (mkdate 2024 4 1) []) Examples.tenant_a 1000 4000
           Unpaid Overdue); by_computation.
Defined.


(* ================================================================== *)
(** * The balance and the amount paid in binary64 *)
(* ================================================================== *)





